(** * Booking decision engine of [lambda_function.py]

    A shallow embedding of the conflict-resolution and booking-decision
    logic of the LINE appointment bot: interval merging, free-slot
    computation, conflict detection, target-event lookup and the message
    handler that drives the calendar.

    Conventions.
    - An aware [datetime] is the instant it denotes, counted in
      microseconds (the resolution of Python's [datetime]) since the epoch,
      as a [Z]. Python compares, subtracts and takes [max]/[min] of aware
      datetimes by instant, which is all this code does with them.
    - A calendar event (a JSON object) is a record whose optional keys are
      [option] fields; its start and end are the instants [_event_range]
      yields for it.
    - Lists that the code mutates through a reference live in a [heap]. *)

From Stdlib Require Import ZArith String List Lia.
From stdpp Require Import base tactics option list gmap strings sorting.

Local Open Scope Z_scope.

(** ** Time *)

Definition datetime := Z.
Definition timedelta := Z.

Definition td_seconds (n : Z) : timedelta := n * 1000000.
Definition td_minutes (n : Z) : timedelta := td_seconds (n * 60).
Definition td_hours (n : Z) : timedelta := td_minutes (n * 60).
Definition td_days (n : Z) : timedelta := td_hours (n * 24).

(** A range is the tuple [(start, end)] of the source. *)
Definition range := (datetime * datetime)%type.

(** The instants a range occupies, read half-open as the spec's
    [[workStart, workEnd)]. *)
Definition in_range (t : datetime) (r : range) : Prop := r.1 <= t < r.2.

Definition covered (t : datetime) (R : list range) : Prop :=
  Exists (in_range t) R.



(** ** Events *)

Record event := Event {
  ev_id : option string;
  ev_status : option string;
  ev_description : option string;
  ev_start : datetime;
  ev_end : datetime
}.

(** [_event_range(event, tz)]: the parsed start and end of the event. *)
Definition _event_range (e : event) (tz : string) : datetime * datetime :=
  (ev_start e, ev_end e).

Definition opt_string_eqb (a b : option string) : bool :=
  match a, b with
  | Some x, Some y => String.eqb x y
  | None, None => true
  | _, _ => false
  end.

(** Python truthiness of an [Optional[str]]: [None] and the empty string are falsy. *)
Definition truthy (s : option string) : bool :=
  match s with
  | Some EmptyString => false
  | Some _ => true
  | None => false
  end.

Definition is_cancelled (e : event) : bool :=
  opt_string_eqb (ev_status e) (Some "cancelled"%string).

(** ** Conflict detector *)

Fixpoint _has_conflict (events : list event) (exclude_event_id : option string)
  : bool :=
  match events with
  | [] => false
  | e :: rest =>
      if is_cancelled e then _has_conflict rest exclude_event_id
      else if truthy exclude_event_id
                && opt_string_eqb (ev_id e) exclude_event_id
           then _has_conflict rest exclude_event_id
           else true
  end.

(** The event is the one [exclude_event_id] names: the id is set (not
    [None], not empty) and the event carries it. *)
Definition excluded (x : option string) (e : event) : Prop :=
  (exists s, x = Some s /\ s <> EmptyString) /\ ev_id e = x.

(** ** Interval model *)

(** [ranges.sort(key=lambda x: x[0])]: Python's sort is stable, and the
    stable sort of a list by a key is unique; insertion before the first
    element whose key is not smaller computes it. *)
Fixpoint insert_by_start (r : range) (l : list range) : list range :=
  match l with
  | [] => [r]
  | r' :: l' =>
      if r.1 <=? r'.1 then r :: l else r' :: insert_by_start r l'
  end.

Definition sort_by_start (l : list range) : list range :=
  foldr insert_by_start [] l.

(** One turn of the loop over [ranges[1:]]: [merged[-1]] is replaced or a
    new range is appended. [merged] is never empty there; on an empty list
    Python would raise [IndexError], the model leaves the list alone. *)
Definition merge_step (merged : list range) (r : range) : list range :=
  match last merged with
  | Some (last_start, last_end) =>
      if r.1 <=? last_end
      then <[pred (length merged) := (last_start, Z.max last_end r.2)]> merged
      else merged ++ [r]
  | None => merged
  end.

(** The list [_merge_busy_ranges] returns. *)
Definition _merge_busy_ranges (ranges : list range) : list range :=
  match ranges with
  | [] => []
  | _ =>
      match sort_by_start ranges with
      | [] => []
      | first :: rest => foldl merge_step [first] rest
      end
  end.

(** The same function with its argument passed by reference, as Python
    passes it: [ranges.sort] reorders the caller's list object, [merged] is
    a new list object. *)
Definition loc := nat.

Definition alloc (v : list range) (h : gmap loc (list range))
  : loc * gmap loc (list range) :=
  let l := fresh (dom h) in (l, <[l := v]> h).

Definition _merge_busy_ranges_ref (ranges : loc) (h : gmap loc (list range))
  : option (loc * gmap loc (list range)) :=
  R ← h !! ranges;
  match R with
  | [] => Some (alloc [] h)
  | _ =>
      let sorted := sort_by_start R in
      let h1 := <[ranges := sorted]> h in
      match sorted with
      | [] => None
      | first :: rest =>
          let '(merged, h2) := alloc [first] h1 in
          Some (merged, <[merged := foldl merge_step [first] rest]> h2)
      end
  end.

Example merge_example :
  _merge_busy_ranges [(30, 50); (10, 20); (20, 25); (40, 45)]
  = [(10, 25); (30, 50)].
Proof. reflexivity. Qed.

(** The loop of [_merge_busy_ranges] read from the range being grown:
    [cur] is [merged[-1]], the ranges before it are final. *)
Fixpoint merge_from (cur : range) (rest : list range) : list range :=
  match rest with
  | [] => [cur]
  | r :: rest' =>
      if r.1 <=? cur.2 then merge_from (cur.1, Z.max cur.2 r.2) rest'
      else cur :: merge_from r rest'
  end.

(** Orders on ranges: by start, and with a strict gap between the end of
    one and the start of the next. *)
Definition start_le (a b : range) : Prop := a.1 <= b.1.
Definition gap (a b : range) : Prop := a.2 < b.1.

(** No instant lies in both ranges. *)
Definition disjoint_ranges (a b : range) : Prop :=
  forall t, ~ (in_range t a /\ in_range t b).

(** ** Target event resolver: the scan over the listed events *)

(** [needle in hay] on Python strings. *)
Fixpoint contains (needle hay : string) : bool :=
  String.prefix needle hay
  || match hay with
     | EmptyString => false
     | String _ hay' => contains needle hay'
     end.

Definition owner_marker (user_id : string) : string :=
  String.append "LINE_USER_ID:" user_id.

(** [user_id and f"LINE_USER_ID:{user_id}" not in description] *)
Definition owner_skipped (user_id : string) (e : event) : bool :=
  truthy (Some user_id)
  && negb (contains (owner_marker user_id) (default EmptyString (ev_description e))).

(** [abs((start_dt - target_dt).total_seconds()) <= 3600] *)
Definition near_target (tz : string) (target_dt : datetime) (e : event) : bool :=
  let '(start_dt, _) := _event_range e tz in
  Z.abs (start_dt - target_dt) <=? td_seconds 3600.

(** The [for event in events] loop of [_find_target_event]. *)
Fixpoint scan_target (user_id : string) (target_dt : option datetime)
    (tz : string) (events : list event) : option event :=
  match events with
  | [] => None
  | e :: rest =>
      if owner_skipped user_id e then scan_target user_id target_dt tz rest
      else match target_dt with
           | Some t =>
               if near_target tz t e then Some e
               else scan_target user_id target_dt tz rest
           | None => Some e
           end
  end.

(** The description carries the requester's marker. *)
Definition owner_matches (user_id : string) (e : event) : bool :=
  contains (owner_marker user_id) (default EmptyString (ev_description e)).

(** What the scan stops at: an event that is not skipped for its owner
    and, when a target start is given, starts within the hour of it. *)
Definition accepts (user_id : string) (target_dt : option datetime)
    (tz : string) (e : event) : bool :=
  negb (owner_skipped user_id e)
  && match target_dt with
     | Some t => near_target tz t e
     | None => true
     end.

(** ** The collaborators *)

Inductive exn :=
| ValueError (msg : string)
| KeyError (key : string)
| AttributeError
| UpstreamError.

Inductive res (A : Type) :=
| Ok (a : A)
| Raise (e : exn).
Arguments Ok {A} a.
Arguments Raise {A} e.

(** The body sent to [events().insert] and [events().update]; start and
    end are the instants whose RFC3339 text is sent. *)
Record event_body := EventBody {
  body_summary : string;
  body_description : string;
  body_start : datetime;
  body_end : datetime;
  body_timezone : string
}.

(** The calendar service, as the handler calls it. A call that fails
    gives [None] and leaves the store as it was; [events().list] reads. *)
Class Calendar (S : Type) := {
  cal_list : S -> string -> datetime -> datetime -> option (list event);
  cal_insert : S -> string -> event_body -> option S;
  cal_update : S -> string -> string -> event_body -> option S;
  cal_delete : S -> string -> string -> option S
}.

Inductive api_call :=
| CallList (calendar_id : string) (time_min time_max : datetime)
| CallInsert (calendar_id : string) (body : event_body)
| CallUpdate (calendar_id event_id : string) (body : event_body)
| CallDelete (calendar_id event_id : string).

Definition is_mutation (c : api_call) : bool :=
  match c with
  | CallList _ _ _ => false
  | _ => true
  end.

(** What [_extract_intent] returns. *)
Record intent_data := IntentData {
  intent : string;
  start_dt : option datetime;
  end_dt : option datetime;
  target_dt : option datetime;
  summary : string;
  notes : string;
  timezone : string
}.

(** The reply the handler picks; its wording is the caller's. *)
Inductive message :=
| MsgCancelNotFound
| MsgCancelled
| MsgChangeNotFound
| MsgRefusal (text : string)
| MsgUpdated (start : datetime)
| MsgCreated (start : datetime)
| MsgError.

(** The [log] dict, without the clock reading and the fields copied from
    the arguments. *)
Record log := Log {
  log_intent : option string;
  log_start : option datetime;
  log_end : option datetime;
  log_status : string;
  log_message : option message;
  log_error : option exn
}.

(** The calendar store, the calls issued to it so far (latest last) and
    the rows of the log sheet. *)
Record world (S : Type) := World {
  w_cal : S;
  w_calls : list api_call;
  w_rows : list log
}.
Arguments World {S} _ _ _.
Arguments w_cal {S} _.
Arguments w_calls {S} _.
Arguments w_rows {S} _.

(** State and exceptions: a computation maps the world to an outcome and
    the world after it. *)
Definition M (S A : Type) : Type := world S -> res A * world S.

Definition ret {S A} (a : A) : M S A := fun w => (Ok a, w).
Definition raise {S A} (e : exn) : M S A := fun w => (Raise e, w).
Definition bind {S A B} (m : M S A) (k : A -> M S B) : M S B :=
  fun w =>
    match m w with
    | (Ok a, w') => k a w'
    | (Raise e, w') => (Raise e, w')
    end.
Definition lift {S A} (r : res A) : M S A := fun w => (r, w).

#[global] Instance M_ret {S} : MRet (M S) := fun A => @ret S A.
#[global] Instance M_bind {S} : MBind (M S) := fun A B k m => bind m k.

Definition time_min_of_day : Z := 0.
Definition time_max_of_day : Z := 86399999999.


(** One range ends no later than the other starts. *)
Definition before (a b : range) : Prop := a.2 <= b.1.

(** The bytes [str.strip()] can take away: Python strips Unicode
    whitespace, and the UTF-8 form of a whitespace character is either
    one of the ASCII bytes 9-13, 28-32 or made of bytes from 128 up. *)
Definition space_byte (c : Ascii.ascii) : bool :=
  let n := Ascii.nat_of_ascii c in
  ((9 <=? n) && (n <=? 13) || (28 <=? n) && (n <=? 32) || (128 <=? n))%nat.

Fixpoint all_bytes (p : Ascii.ascii -> bool) (s : string) : bool :=
  match s with
  | EmptyString => true
  | String c s' => p c && all_bytes p s'
  end.

(** [strip] returns its argument without some leading and trailing
    bytes, all of them bytes of whitespace. *)
Definition trims_whitespace (strip : string -> string) : Prop :=
  forall s, exists pre post,
    s = String.append pre (String.append (strip s) post)
    /\ all_bytes space_byte pre = true
    /\ all_bytes space_byte post = true.

(** The latest end among [e] and the ends of the ranges of [G]. *)
Definition top (e : datetime) (G : list range) : datetime :=
  foldr (fun g acc => Z.max g.2 acc) e G.

(** ** A calendar and a clock to run the engine on

    A store that keeps its events in a list, and UTC as the only zone:
    day [d] starts at the instant [d * 86400 s]. *)

Definition overlaps_query (time_min time_max : datetime) (e : event) : bool :=
  (time_min <? ev_end e) && (ev_start e <? time_max).

Definition has_id (i : string) (e : event) : bool :=
  opt_string_eqb (ev_id e) (Some i).

Definition event_of_body (i : string) (b : event_body) : event :=
  Event (Some i) (Some "confirmed"%string) (Some (body_description b))
        (body_start b) (body_end b).

#[global] Instance list_calendar : Calendar (list event) := {
  cal_list evs _ time_min time_max :=
    Some (filter (fun e => overlaps_query time_min time_max e = true) evs);
  cal_insert evs _ b := Some (evs ++ [event_of_body "created" b]);
  cal_update evs _ i b :=
    if existsb (has_id i) evs
    then Some (map (fun e => if has_id i e then event_of_body i b else e) evs)
    else None;
  cal_delete evs _ i :=
    if existsb (has_id i) evs
    then Some (filter (fun e => has_id i e = false) evs)
    else None
}.

Definition utc_combine (d : Z) (t : Z) (tz : string) : datetime :=
  d * 86400000000 + t.

Definition utc_date (tz : string) (t : datetime) : Z := t / 86400000000.

(** [hm h m]: the time of day [h:m]; [at_ d h m]: that time on day [d], UTC. *)
Definition hm (h m : Z) : Z := td_minutes (h * 60 + m).
Definition at_ (d h m : Z) : datetime := utc_combine d (hm h m) "UTC".

(** Stand-ins for the environment, the language model and the text
    helpers, and the events of the scenarios below (all on day 0). *)
Definition test_environ (name : string) : option string :=
  if String.eqb name "CALENDAR_ID" then Some "cal"%string
  else if String.eqb name "SPREADSHEET_ID" then Some "sheet"%string
  else None.

Definition test_mode (text : string) : string := "dental"%string.

Definition test_extract (d : intent_data) (text mode tz : string)
  : res intent_data := Ok d.

Definition test_refusal (mode text : string) (slots : list string)
  : res string := Ok (String.concat "; " slots).

Definition test_format (r : range) : string :=
  if r.1 <? hm 10 0 then "morning"%string else "later"%string.

Definition test_strip (s : string) : string := s.

Definition test_append_ok (l : log) : bool := true.

Definition booked (i owner : string) (s e : datetime) : event :=
  Event (Some i) (Some "confirmed"%string) (Some (owner_marker owner)) s e.

Definition request (kind : string) (s e : option datetime)
    (target : option datetime) : intent_data :=
  IntentData kind s e target "visit" EmptyString "UTC".

(** ** The engine *)

Section Engine.

#[local] Set Default Proof Using "Type".

Context {S : Type} `{Calendar S}.

(** [dt.datetime.combine(date, time, tzinfo=ZoneInfo(tz))] and
    [x.astimezone(ZoneInfo(tz)).date()]; a date is its ordinal, a time
    of day its microseconds since midnight. *)
Variable combine : Z -> Z -> string -> datetime.
Variable local_date : string -> datetime -> Z.

(** Process-wide configuration and the environment. *)
Variable WORK_START WORK_END : Z.
Variable DEFAULT_TIMEZONE : string.
Variable environ : string -> option string.

(** [dt.datetime.now(...)] as read by [_find_target_event]. *)
Variable now : datetime.

(** The language model, the formatting of a slot and of text. *)
Variable _detect_mode : string -> string.
Variable _extract_intent : string -> string -> string -> res intent_data.
Variable _generate_refusal_message :
  string -> string -> list string -> res string.
Variable format_slot : range -> string.
Variable strip : string -> string.

(** Whether appending a row to the log sheet goes through. *)
Variable append_ok : log -> bool.

(** *** Free-slot calculator *)

(** The loop that fills [busy]. *)
Fixpoint busy_ranges (window_start window_end : datetime) (tz : string)
    (events : list event) : list range :=
  match events with
  | [] => []
  | e :: rest =>
      if is_cancelled e then busy_ranges window_start window_end tz rest
      else
        let '(s, e_) := _event_range e tz in
        if (e_ <=? window_start) || (window_end <=? s)
        then busy_ranges window_start window_end tz rest
        else (Z.max s window_start, Z.min e_ window_end)
               :: busy_ranges window_start window_end tz rest
  end.

(** One turn of the loop over the merged busy ranges. *)
Definition free_step (st : list range * datetime) (b : range)
  : list range * datetime :=
  let '(free, cursor) := st in
  let free := if cursor <? b.1 then free ++ [(cursor, b.1)] else free in
  (free, Z.max cursor b.2).

(** [free] as it stands before the duration filter. *)
Definition free_candidates (window_start window_end : datetime)
    (busy : list range) : list range :=
  let '(free, cursor) := foldl free_step ([], window_start) busy in
  if cursor <? window_end then free ++ [(cursor, window_end)] else free.

(** The same walk read from the cursor: the gaps still to come from
    [cursor] on. *)
Fixpoint free_from (window_end cursor : datetime) (busy : list range)
  : list range :=
  match busy with
  | [] => if cursor <? window_end then [(cursor, window_end)] else []
  | b :: rest =>
      (if cursor <? b.1 then [(cursor, b.1)] else [])
      ++ free_from window_end (Z.max cursor b.2) rest
  end.

Definition _compute_free_slots (events : list event) (target_date : Z)
    (tz : string) (duration_minutes : Z) : list range :=
  let window_start := combine target_date WORK_START tz in
  let window_end := combine target_date WORK_END tz in
  let busy := busy_ranges window_start window_end tz events in
  let busy := _merge_busy_ranges busy in
  let free := free_candidates window_start window_end busy in
  let duration := td_minutes duration_minutes in
  filter (fun r => (duration <=? r.2 - r.1) = true) free.

(** The working window, the merged busy ranges and the candidate gaps
    that [_compute_free_slots] builds on its way. *)
Definition work_window (target_date : Z) (tz : string) : range :=
  (combine target_date WORK_START tz, combine target_date WORK_END tz).

Definition merged_busy (events : list event) (target_date : Z) (tz : string)
  : list range :=
  let W := work_window target_date tz in
  _merge_busy_ranges (busy_ranges W.1 W.2 tz events).

Definition candidate_gaps (events : list event) (target_date : Z)
    (tz : string) : list range :=
  let W := work_window target_date tz in
  free_candidates W.1 W.2 (merged_busy events target_date tz).


Definition _format_slots (slots : list range) : list string :=
  map format_slot slots.

(** *** Calls to the calendar *)

Definition issue (c : api_call) (w : world S) : world S :=
  World (w_cal w) (w_calls w ++ [c]) (w_rows w).

Definition _list_events (calendar_id : string) (time_min time_max : datetime)
  : M S (list event) :=
  fun w =>
    let w' := issue (CallList calendar_id time_min time_max) w in
    match cal_list (w_cal w) calendar_id time_min time_max with
    | Some evs => (Ok evs, w')
    | None => (Raise UpstreamError, w')
    end.

(** A mutating call: the store moves on only when the call succeeds. *)
Definition mutate (c : api_call) (r : option S) : M S unit :=
  fun w =>
    let w' := issue c w in
    match r with
    | Some s' => (Ok tt, World s' (w_calls w') (w_rows w'))
    | None => (Raise UpstreamError, w')
    end.

Definition events_insert (calendar_id : string) (b : event_body) : M S unit :=
  fun w => mutate (CallInsert calendar_id b)
                  (cal_insert (w_cal w) calendar_id b) w.

Definition events_update (calendar_id event_id : string) (b : event_body)
  : M S unit :=
  fun w => mutate (CallUpdate calendar_id event_id b)
                  (cal_update (w_cal w) calendar_id event_id b) w.

Definition events_delete (calendar_id event_id : string) : M S unit :=
  fun w => mutate (CallDelete calendar_id event_id)
                  (cal_delete (w_cal w) calendar_id event_id) w.

(** [target_event["id"]] *)
Definition event_id_of (e : event) : M S string :=
  match ev_id e with
  | Some i => mret i
  | None => raise (KeyError "id")
  end.

(** *** Target event resolver *)

Definition search_window (target_dt : option datetime) : datetime * datetime :=
  match target_dt with
  | Some t => (t - td_hours 4, t + td_hours 4)
  | None => (now, now + td_days 30)
  end.

Definition _find_target_event (calendar_id user_id : string)
    (target_dt : option datetime) (tz : string) : M S (option event) :=
  let '(time_min, time_max) := search_window target_dt in
  events ← _list_events calendar_id time_min time_max;
  mret (scan_target user_id target_dt tz events).

(** *** Message handler *)

(** [_get_env(name)]: unset and empty both raise. *)
Definition _get_env (name : string) : res string :=
  match environ name with
  | Some v => if truthy (Some v) then Ok v
              else Raise (ValueError name)
  | None => Raise (ValueError name)
  end.

Definition nl : string := String (Ascii.ascii_of_nat 10) EmptyString.

(** [f"LINE_USER_ID:{user_id}\nMODE:{mode}\n{notes}".strip()] *)
Definition description_of (user_id mode notes_ : string) : string :=
  strip (String.append (owner_marker user_id)
          (String.append nl
            (String.append "MODE:"
              (String.append mode (String.append nl notes_))))).

Definition with_status (l : log) (status : string) (m : message) : log :=
  Log (log_intent l) (log_start l) (log_end l) status (Some m) (log_error l).

(** [int((end_dt - start_dt).total_seconds() / 60)]: [int] truncates
    towards zero. *)
Definition duration_minutes_of (s e : datetime) : Z :=
  Z.quot (e - s) (td_minutes 1).



(** The refusal branch: the day of the proposed start is listed and its
    free slots are offered. *)
Definition refuse (text mode calendar_id tz : string) (s e : datetime)
    (l : log) : M S (message * log) :=
  let day_start := local_date tz s in
  day_events ← _list_events calendar_id
                  (combine day_start time_min_of_day tz)
                  (combine day_start time_max_of_day tz);
  let duration := duration_minutes_of s e in
  let slots := _compute_free_slots day_events day_start tz duration in
  let slot_texts := _format_slots (take 3 slots) in
  m ← lift (_generate_refusal_message mode text slot_texts);
  mret (MsgRefusal m, with_status l "conflict" (MsgRefusal m)).

(** The body of the event to insert or to write over the target. *)
Definition body_of (user_id mode tz : string) (d : intent_data)
    (s e : datetime) : event_body :=
  EventBody (summary d) (description_of user_id mode (notes d)) s e tz.

(** From [events = _list_events(...)] to the end of the [try] block;
    [target_event] is [None] unless the intent is a change whose target
    was found. A missing [start_dt] makes [_to_rfc3339] raise before any
    call goes out. *)
Definition book (text user_id mode calendar_id tz : string)
    (d : intent_data) (target_event : option event) (l : log)
  : M S (message * log) :=
  match start_dt d, end_dt d with
  | Some s, Some e =>
      events ← _list_events calendar_id s e;
      exclude_id ← match target_event with
                   | Some ev => i ← event_id_of ev; mret (Some i)
                   | None => mret None
                   end;
      if _has_conflict events exclude_id
      then refuse text mode calendar_id tz s e l
      else
        let event_body := body_of user_id mode tz d s e in
        match (if String.eqb (intent d) "change" then target_event else None)
        with
        | Some ev =>
            i ← event_id_of ev;
            _ ← events_update calendar_id i event_body;
            mret (MsgUpdated s, with_status l "updated" (MsgUpdated s))
        | None =>
            _ ← events_insert calendar_id event_body;
            mret (MsgCreated s, with_status l "created" (MsgCreated s))
        end
  | _, _ => raise AttributeError
  end.

(** [intent_data["timezone"] or timezone] *)
Definition effective_timezone (d : intent_data) : string :=
  if truthy (Some (timezone d)) then timezone d else DEFAULT_TIMEZONE.

(** [not start_dt]: a datetime is always truthy, [None] never. *)
Definition missing (o : option datetime) : bool :=
  match o with
  | Some _ => false
  | None => true
  end.

(** The [try] block after the intent was extracted and logged. *)
Definition decide_intent (text user_id mode calendar_id : string)
    (d : intent_data) (l : log) : M S (message * log) :=
  let tz := effective_timezone d in
  if (String.eqb (intent d) "new" || String.eqb (intent d) "change")
     && (missing (start_dt d) || missing (end_dt d))
  then raise (ValueError "start/end")
  else if String.eqb (intent d) "cancel" then
    target_event ← _find_target_event calendar_id user_id (target_dt d) tz;
    match target_event with
    | None => mret (MsgCancelNotFound,
                    with_status l "not_found" MsgCancelNotFound)
    | Some ev =>
        i ← event_id_of ev;
        _ ← events_delete calendar_id i;
        mret (MsgCancelled, with_status l "cancelled" MsgCancelled)
    end
  else if String.eqb (intent d) "change" then
    target_event ← _find_target_event calendar_id user_id (target_dt d) tz;
    match target_event with
    | None => mret (MsgChangeNotFound,
                    with_status l "not_found" MsgChangeNotFound)
    | Some ev => book text user_id mode calendar_id tz d (Some ev) l
    end
  else book text user_id mode calendar_id tz d None l.

(** The [except Exception] clause. *)
Definition on_error (l : log) (e : exn) : message * log :=
  (MsgError,
   Log (log_intent l) (log_start l) (log_end l) "error" (Some MsgError)
       (Some e)).

(** The [finally] clause: a failed append is logged and dropped. *)
Definition _append_log (l : log) (w : world S) : world S :=
  if append_ok l then World (w_cal w) (w_calls w) (w_rows w ++ [l]) else w.

Definition _handle_message (text user_id : string) : M S (message * log) :=
  fun w =>
    let mode := _detect_mode text in
    match _get_env "CALENDAR_ID", _get_env "SPREADSHEET_ID" with
    | Raise e, _ => (Raise e, w)
    | Ok _, Raise e => (Raise e, w)
    | Ok calendar_id, Ok _ =>
        let log0 := Log None None None "error" None None in
        let '(r, w1) :=
          match _extract_intent text mode DEFAULT_TIMEZONE with
          | Raise e => (on_error log0 e, w)
          | Ok d =>
              let log1 := Log (Some (intent d)) (start_dt d) (end_dt d)
                              "error" None None in
              match decide_intent text user_id mode calendar_id d log1 w with
              | (Ok r, w') => (r, w')
              | (Raise e, w') => (on_error log1 e, w')
              end
          end in
        (Ok r, _append_log r.2 w1)
    end.

(** Nothing was written between two worlds: the store is the same and
    the calls issued in between are all listings. *)
Definition quiet (w w' : world S) : Prop :=
  w_cal w' = w_cal w
  /\ exists cs, w_calls w' = w_calls w ++ cs
                /\ Forall (fun c => is_mutation c = false) cs.

(** The write succeeded and took the store from [s] to [s']. *)
Definition applied (c : api_call) (s s' : S) : Prop :=
  match c with
  | CallList _ _ _ => False
  | CallInsert calendar_id b => cal_insert s calendar_id b = Some s'
  | CallUpdate calendar_id i b => cal_update s calendar_id i b = Some s'
  | CallDelete calendar_id i => cal_delete s calendar_id i = Some s'
  end.

(** The status logged after each kind of write, and with each reply. *)
Definition status_of_write (c : api_call) : string :=
  match c with
  | CallList _ _ _ => "error"
  | CallInsert _ _ => "created"
  | CallUpdate _ _ _ => "updated"
  | CallDelete _ _ => "cancelled"
  end.

Definition status_of_message (m : message) : string :=
  match m with
  | MsgCancelNotFound | MsgChangeNotFound => "not_found"
  | MsgCancelled => "cancelled"
  | MsgRefusal _ => "conflict"
  | MsgUpdated _ => "updated"
  | MsgCreated _ => "created"
  | MsgError => "error"
  end.


(** The event of id [i] was returned by the target lookup of the request
    [d] for [user_id]: it is in the listing of the search window and is
    not skipped for its owner. *)
Definition owned_target (w : world S) (user_id : string) (d : intent_data)
    (calendar_id i : string) : Prop :=
  exists targets ev,
    cal_list (w_cal w) calendar_id (search_window (target_dt d)).1
             (search_window (target_dt d)).2 = Some targets
    /\ ev ∈ targets
    /\ ev_id ev = Some i
    /\ owner_skipped user_id ev = false.

(** What the intent of [d] lets a call do. *)
Definition call_allowed (w : world S) (user_id : string) (d : intent_data)
    (c : api_call) : Prop :=
  match c with
  | CallList _ _ _ => True
  | CallInsert _ _ =>
      intent d <> "cancel"%string /\ intent d <> "change"%string
  | CallUpdate calendar_id i _ =>
      intent d = "change"%string /\ owned_target w user_id d calendar_id i
  | CallDelete calendar_id i =>
      intent d = "cancel"%string /\ owned_target w user_id d calendar_id i
  end.

(** ** Facts about the conflict detector *)

Lemma opt_string_eqb_eq (a b : option string) :
  opt_string_eqb a b = true <-> a = b.
Proof.
  destruct a as [x|], b as [y|]; simpl; try (split; congruence).
  rewrite String.eqb_eq. split; congruence.
Qed.

Lemma is_cancelled_spec (e : event) :
  is_cancelled e = true <-> ev_status e = Some "cancelled"%string.
Proof. apply opt_string_eqb_eq. Qed.

Lemma truthy_spec (x : option string) :
  truthy x = true <-> exists s, x = Some s /\ s <> EmptyString.
Proof.
  destruct x as [[|c s]|]; simpl; split; try congruence.
  - intros (s & Hs & Hne). congruence.
  - intros _. eexists. split; [reflexivity | congruence].
  - intros (s & Hs & _). congruence.
Qed.

Lemma excluded_spec (x : option string) (e : event) :
  truthy x && opt_string_eqb (ev_id e) x = true <-> excluded x e.
Proof.
  unfold excluded. rewrite andb_true_iff, truthy_spec, opt_string_eqb_eq.
  reflexivity.
Qed.

Lemma has_conflict_iff (events : list event) (x : option string) :
  _has_conflict events x = true
  <-> exists e, e ∈ events
                /\ ev_status e <> Some "cancelled"%string
                /\ ~ excluded x e.
Proof.
  induction events as [|e rest IH]; simpl.
  - split; [congruence | intros (e & He & _); inversion He].
  - destruct (is_cancelled e) eqn:Hc.
    + rewrite IH. apply is_cancelled_spec in Hc.
      split; intros (e' & Hin & Hs & Hx).
      * exists e'. split; [by apply list_elem_of_further | done].
      * apply elem_of_cons in Hin as [-> | Hin]; [done |].
        by exists e'.
    + assert (Hs : ev_status e <> Some "cancelled"%string).
      { intros Hs. apply is_cancelled_spec in Hs. congruence. }
      destruct (truthy x && opt_string_eqb (ev_id e) x) eqn:Hx.
      * rewrite IH. apply excluded_spec in Hx.
        split; intros (e' & Hin & Hs' & Hx').
        -- exists e'. split; [by apply list_elem_of_further | done].
        -- apply elem_of_cons in Hin as [-> | Hin]; [done |].
           by exists e'.
      * split; [intros _ | done].
        exists e. split; [apply list_elem_of_here |]. split; [done |].
        intros Hex. apply excluded_spec in Hex. congruence.
Qed.

(** C5. [_has_conflict] answers true exactly when some listed event is
    neither cancelled nor the event the (set) exclusion id names; it is
    false on the empty list and on a list of cancelled events, whatever
    the exclusion id. *)
Theorem has_conflict_characterised :
  (forall (events : list event) (x : option string),
      _has_conflict events x = true
      <-> exists e, e ∈ events
                    /\ ev_status e <> Some "cancelled"%string
                    /\ ~ excluded x e)
  /\ (forall x, _has_conflict [] x = false)
  /\ (forall (events : list event) (x : option string),
         Forall (fun e => ev_status e = Some "cancelled"%string) events ->
         _has_conflict events x = false).
Proof.
  split; [exact has_conflict_iff |]. split; [reflexivity |].
  intros events x Hall.
  destruct (_has_conflict events x) eqn:Hc; [| reflexivity].
  apply has_conflict_iff in Hc as (e & Hin & Hs & _).
  rewrite Forall_forall in Hall. by specialize (Hall e Hin).
Qed.

Lemma has_conflict_unset (events : list event) (x : option string) :
  x = None \/ x = Some EmptyString ->
  _has_conflict events x = existsb (fun e => negb (is_cancelled e)) events.
Proof.
  intros Hx. induction events as [|e rest IH]; simpl; [reflexivity |].
  destruct (is_cancelled e); simpl; [exact IH |].
  by destruct Hx as [-> | ->].
Qed.

(** C9. Only the status ["cancelled"] makes the detector pass over an
    event: with the exclusion id [None] or empty, any listed event whose
    status is absent or different makes the answer true, whatever its
    id (the empty id included), and the answer is that of the list with
    no exclusion at all. *)
Theorem has_conflict_only_cancelled_skipped :
  (forall e, is_cancelled e = true <-> ev_status e = Some "cancelled"%string)
  /\ (forall (events : list event) (x : option string) (e : event),
         x = None \/ x = Some EmptyString ->
         e ∈ events ->
         ev_status e <> Some "cancelled"%string ->
         _has_conflict events x = true)
  /\ (forall (events : list event) (x : option string),
         x = None \/ x = Some EmptyString ->
         _has_conflict events x
         = existsb (fun e => negb (is_cancelled e)) events)
  /\ (forall st d s e rest,
         st <> Some "cancelled"%string ->
         _has_conflict (Event (Some EmptyString) st d s e :: rest)
                       (Some EmptyString) = true).
Proof.
  split; [exact is_cancelled_spec |].
  assert (Hgen : forall (events : list event) (x : option string) (e : event),
             x = None \/ x = Some EmptyString ->
             e ∈ events ->
             ev_status e <> Some "cancelled"%string ->
             _has_conflict events x = true).
  { intros events x e Hx Hin Hs. apply has_conflict_iff.
    exists e. split; [done |]. split; [done |].
    intros [(s & Hsome & Hne) _]. destruct Hx as [-> | ->]; congruence. }
  split; [exact Hgen |]. split; [exact has_conflict_unset |].
  intros st d s e rest Hst.
  apply (Hgen _ _ (Event (Some EmptyString) st d s e)); [by right | | done].
  apply list_elem_of_here.
Qed.

(** ** Facts about the interval model *)

Lemma insert_by_start_perm (r : range) (l : list range) :
  insert_by_start r l ≡ₚ r :: l.
Proof.
  induction l as [|r' l IH]; simpl; [reflexivity |].
  destruct (r.1 <=? r'.1); [reflexivity |].
  rewrite IH. apply Permutation_swap.
Qed.

Lemma sort_by_start_perm (l : list range) : sort_by_start l ≡ₚ l.
Proof.
  induction l as [|r l IH]; simpl; [reflexivity |].
  rewrite insert_by_start_perm. by rewrite IH.
Qed.

Lemma insert_by_start_sorted (r : range) (l : list range) :
  StronglySorted start_le l -> StronglySorted start_le (insert_by_start r l).
Proof.
  induction l as [|r' l IH]; simpl; intros Hs.
  - repeat constructor.
  - apply StronglySorted_inv in Hs as [Hl Hall].
    destruct (r.1 <=? r'.1) eqn:Hle.
    + apply Z.leb_le in Hle. constructor; [by constructor |].
      constructor; [exact Hle |].
      eapply Forall_impl; [exact Hall |].
      unfold start_le. intros; simpl in *; lia.
    + apply Z.leb_gt in Hle. constructor; [by apply IH |].
      rewrite insert_by_start_perm. constructor; [| exact Hall].
      unfold start_le. lia.
Qed.

Lemma sort_by_start_sorted (l : list range) :
  StronglySorted start_le (sort_by_start l).
Proof.
  induction l as [|r l IH]; simpl; [constructor |].
  by apply insert_by_start_sorted.
Qed.

Lemma sort_by_start_id (l : list range) :
  StronglySorted start_le l -> sort_by_start l = l.
Proof.
  induction l as [|r l IH]; simpl; intros Hs; [reflexivity |].
  apply StronglySorted_inv in Hs as [Hl Hall].
  rewrite (IH Hl). destruct l as [|r' l']; [reflexivity |]. simpl.
  apply Forall_cons in Hall as [Hle _]. unfold start_le in Hle.
  by rewrite (proj2 (Z.leb_le _ _) Hle).
Qed.

(** The sort is stable: ranges with one start keep their order. *)
Lemma insert_by_start_stable (k : datetime) (r : range) (l : list range) :
  StronglySorted start_le l ->
  filter (fun x : range => x.1 = k) (insert_by_start r l)
  = filter (fun x : range => x.1 = k) (r :: l).
Proof.
  induction l as [|r' l IH]; simpl; intros Hs; [reflexivity |].
  apply StronglySorted_inv in Hs as [Hl Hall].
  destruct (r.1 <=? r'.1) eqn:Hle; [reflexivity |].
  apply Z.leb_gt in Hle.
  rewrite !filter_cons. rewrite (IH Hl). rewrite !filter_cons.
  repeat case_decide; try reflexivity. lia.
Qed.

Lemma sort_by_start_stable (k : datetime) (l : list range) :
  filter (fun x : range => x.1 = k) (sort_by_start l) = filter (fun x : range => x.1 = k) l.
Proof.
  induction l as [|r l IH]; simpl; [reflexivity |].
  rewrite insert_by_start_stable by apply sort_by_start_sorted.
  rewrite !filter_cons. by rewrite IH.
Qed.

Lemma foldl_merge_step (rest acc : list range) (cur : range) :
  foldl merge_step (acc ++ [cur]) rest = acc ++ merge_from cur rest.
Proof.
  revert acc cur. induction rest as [|r rest IH]; intros acc cur; simpl.
  - reflexivity.
  - unfold merge_step at 2. rewrite last_snoc. destruct cur as [ls le].
    simpl. destruct (r.1 <=? le).
    + rewrite length_app. simpl.
      replace (pred (length acc + 1)) with (length acc + 0)%nat by lia.
      rewrite insert_app_r. simpl. apply IH.
    + rewrite IH. by rewrite <- app_assoc.
Qed.

Lemma merge_busy_ranges_unfold (ranges : list range) :
  _merge_busy_ranges ranges
  = match sort_by_start ranges with
    | [] => []
    | first :: rest => merge_from first rest
    end.
Proof.
  unfold _merge_busy_ranges. destruct ranges as [|r l]; [reflexivity |].
  destruct (sort_by_start (r :: l)) as [|first rest]; [reflexivity |].
  apply (foldl_merge_step rest [] first).
Qed.

Lemma covered_cons (t : datetime) (r : range) (R : list range) :
  covered t (r :: R) <-> in_range t r \/ covered t R.
Proof. unfold covered. apply Exists_cons. Qed.

Lemma covered_perm (t : datetime) (R R' : list range) :
  R ≡ₚ R' -> covered t R <-> covered t R'.
Proof. intros HP. unfold covered. by rewrite HP. Qed.

Lemma merge_from_covered (t : datetime) (rest : list range) (cur : range) :
  StronglySorted start_le (cur :: rest) ->
  covered t (merge_from cur rest) <-> covered t (cur :: rest).
Proof.
  revert cur. induction rest as [|r rest IH]; intros cur Hs; simpl.
  - reflexivity.
  - apply StronglySorted_inv in Hs as [Hrest Hcur].
    pose proof Hrest as Hrest'.
    apply StronglySorted_inv in Hrest' as [Hrr Hr].
    apply Forall_cons in Hcur as [Hle Hcur]. unfold start_le in Hle.
    destruct (r.1 <=? cur.2) eqn:Hm.
    + apply Z.leb_le in Hm. rewrite IH.
      * rewrite !covered_cons. unfold in_range. simpl.
        pose proof (Z.max_spec cur.2 r.2) as Hmax.
        clear - Hm Hle Hmax. intuition lia.
      * constructor; [exact Hrr |].
        eapply Forall_impl; [exact Hcur |]. unfold start_le. simpl. done.
    + rewrite covered_cons. rewrite (IH r Hrest).
      by rewrite (covered_cons t cur).
Qed.

Lemma merge_from_starts (m : datetime) (rest : list range) (cur : range) :
  Forall (fun r : range => m <= r.1) (cur :: rest) ->
  Forall (fun r : range => m <= r.1) (merge_from cur rest).
Proof.
  revert cur. induction rest as [|r rest IH]; intros cur Hall; simpl.
  - exact Hall.
  - apply Forall_cons in Hall as [Hc Hall].
    pose proof Hall as Hall'. apply Forall_cons in Hall' as [Hr Hrest].
    destruct (r.1 <=? cur.2).
    + apply IH. by constructor.
    + constructor; [exact Hc |]. by apply IH.
Qed.

Lemma merge_from_start_sorted (rest : list range) (cur : range) :
  StronglySorted start_le (cur :: rest) ->
  StronglySorted start_le (merge_from cur rest).
Proof.
  revert cur. induction rest as [|r rest IH]; intros cur Hs; simpl.
  - exact Hs.
  - apply StronglySorted_inv in Hs as [Hrest Hcur].
    pose proof Hrest as Hrest'.
    apply StronglySorted_inv in Hrest' as [Hrr Hr].
    apply Forall_cons in Hcur as [Hle Hcur].
    destruct (r.1 <=? cur.2).
    + apply IH. constructor; [exact Hrr |].
      eapply Forall_impl; [exact Hcur |]. unfold start_le. simpl. done.
    + constructor; [by apply IH |].
      apply (merge_from_starts cur.1). constructor; [exact Hle |].
      exact Hcur.
Qed.

Lemma merge_from_gap (rest : list range) (cur : range) :
  StronglySorted start_le (cur :: rest) ->
  StronglySorted gap (merge_from cur rest).
Proof.
  revert cur. induction rest as [|r rest IH]; intros cur Hs; simpl.
  - repeat constructor.
  - apply StronglySorted_inv in Hs as [Hrest Hcur].
    pose proof Hrest as Hrest'.
    apply StronglySorted_inv in Hrest' as [Hrr Hr].
    apply Forall_cons in Hcur as [Hle Hcur].
    destruct (r.1 <=? cur.2) eqn:Hm.
    + apply IH. constructor; [exact Hrr |].
      eapply Forall_impl; [exact Hcur |]. unfold start_le. simpl. done.
    + apply Z.leb_gt in Hm. constructor; [by apply IH |].
      assert (Hst : Forall (fun x : range => r.1 <= x.1) (merge_from r rest)).
      { apply merge_from_starts. constructor; [lia | exact Hr]. }
      eapply Forall_impl; [exact Hst |]. unfold gap. simpl. intros; lia.
Qed.

Lemma merge_from_id (rest : list range) (cur : range) :
  StronglySorted gap (cur :: rest) -> merge_from cur rest = cur :: rest.
Proof.
  revert cur. induction rest as [|r rest IH]; intros cur Hs; simpl.
  - reflexivity.
  - apply StronglySorted_inv in Hs as [Hrest Hcur].
    apply Forall_cons in Hcur as [Hg _]. unfold gap in Hg.
    rewrite (proj2 (Z.leb_gt _ _) Hg). by rewrite (IH r Hrest).
Qed.

Lemma StronglySorted_lookup_lt {A} (R : A -> A -> Prop) (l : list A)
    (i j : nat) (a b : A) :
  StronglySorted R l -> (i < j)%nat ->
  l !! i = Some a -> l !! j = Some b -> R a b.
Proof.
  intros Hs. revert i j. induction Hs as [|x l Hl IH Hall]; intros i j Hij Hi Hj.
  - by rewrite lookup_nil in Hi.
  - destruct j as [|j]; [lia |]. simpl in Hj. destruct i as [|i].
    + simpl in Hi. injection Hi as ->.
      rewrite Forall_lookup in Hall. by apply (Hall j).
    + simpl in Hi. apply (IH i j); [lia | done | done].
Qed.

Lemma gap_disjoint (a b : range) : gap a b -> disjoint_ranges a b.
Proof. unfold gap, disjoint_ranges, in_range. intros Hg t. lia. Qed.

Lemma merge_busy_ranges_gap (R : list range) :
  StronglySorted gap (_merge_busy_ranges R).
Proof.
  rewrite merge_busy_ranges_unfold.
  pose proof (sort_by_start_sorted R) as Hs.
  destruct (sort_by_start R) as [|first rest]; [constructor |].
  by apply merge_from_gap.
Qed.

Lemma merge_busy_ranges_start_sorted (R : list range) :
  StronglySorted start_le (_merge_busy_ranges R).
Proof.
  rewrite merge_busy_ranges_unfold.
  pose proof (sort_by_start_sorted R) as Hs.
  destruct (sort_by_start R) as [|first rest]; [constructor |].
  by apply merge_from_start_sorted.
Qed.

Lemma merge_busy_ranges_covered (t : datetime) (R : list range) :
  covered t (_merge_busy_ranges R) <-> covered t R.
Proof.
  rewrite merge_busy_ranges_unfold.
  rewrite <- (covered_perm t _ _ (sort_by_start_perm R)).
  pose proof (sort_by_start_sorted R) as Hs.
  destruct (sort_by_start R) as [|first rest]; [reflexivity |].
  by apply merge_from_covered.
Qed.

Lemma merge_busy_ranges_fixed (M : list range) :
  StronglySorted start_le M -> StronglySorted gap M ->
  _merge_busy_ranges M = M.
Proof.
  intros Hs Hg. rewrite merge_busy_ranges_unfold.
  rewrite (sort_by_start_id M Hs).
  destruct M as [|first rest]; [reflexivity |]. by apply merge_from_id.
Qed.

(** C4. The merged list is sorted by start, its ranges are pairwise
    disjoint (each ends strictly before the next starts, so no two
    touch), it covers the instants the input covers, touching ranges
    come out as one, merging again changes nothing, and the empty list
    gives the empty list. *)
Theorem merge_busy_ranges_canonical (R : list range) :
  (forall i j a b,
      (i < j)%nat ->
      _merge_busy_ranges R !! i = Some a ->
      _merge_busy_ranges R !! j = Some b ->
      a.1 <= b.1 /\ a.2 < b.1 /\ disjoint_ranges a b)
  /\ (forall t, covered t (_merge_busy_ranges R) <-> covered t R)
  /\ (forall a b c : datetime,
         a <= b -> _merge_busy_ranges [(a, b); (b, c)] = [(a, Z.max b c)])
  /\ _merge_busy_ranges (_merge_busy_ranges R) = _merge_busy_ranges R
  /\ _merge_busy_ranges [] = [].
Proof.
  split; [| split; [| split; [| split]]].
  - intros i j a b Hij Ha Hb.
    pose proof (StronglySorted_lookup_lt _ _ _ _ _ _
                  (merge_busy_ranges_start_sorted R) Hij Ha Hb) as H1.
    pose proof (StronglySorted_lookup_lt _ _ _ _ _ _
                  (merge_busy_ranges_gap R) Hij Ha Hb) as H2.
    split; [exact H1 |]. split; [exact H2 | by apply gap_disjoint].
  - intros t. apply merge_busy_ranges_covered.
  - intros a b c Hab. unfold _merge_busy_ranges, sort_by_start. simpl.
    rewrite (proj2 (Z.leb_le _ _) Hab). simpl.
    unfold merge_step. simpl. by rewrite Z.leb_refl.
  - apply merge_busy_ranges_fixed;
      [apply merge_busy_ranges_start_sorted | apply merge_busy_ranges_gap].
  - reflexivity.
Qed.

(** ** The argument list of [_merge_busy_ranges] *)

Lemma sort_by_start_nonempty (r : range) (l : list range) :
  sort_by_start (r :: l) <> [].
Proof.
  intros Heq. pose proof (sort_by_start_perm (r :: l)) as HP.
  rewrite Heq in HP. by apply Permutation_nil_cons in HP.
Qed.

Lemma merge_busy_ranges_ref_spec (h : gmap loc (list range)) (l : loc)
    (R : list range) :
  h !! l = Some R ->
  exists l' h',
    _merge_busy_ranges_ref l h = Some (l', h')
    /\ (l' ∉ dom h) /\ l' <> l
    /\ h' !! l = Some (sort_by_start R)
    /\ h' !! l' = Some (_merge_busy_ranges R)
    /\ (forall k, k <> l -> k <> l' -> h' !! k = h !! k).
Proof.
  intros Hl. unfold _merge_busy_ranges_ref. rewrite Hl. simpl.
  assert (Hdom : l ∈ dom h) by (apply elem_of_dom; eauto).
  destruct R as [|r R'].
  - unfold alloc. pose proof (is_fresh (dom h)) as Hf.
    set (l' := fresh (dom h)) in *.
    assert (Hne : l' <> l) by (intros ->; done).
    exists l', (<[l' := []]> h). split; [reflexivity |].
    split; [exact Hf |]. split; [exact Hne |].
    split; [by rewrite lookup_insert_ne |].
    split; [by rewrite lookup_insert_eq |].
    intros k _ Hk. by rewrite lookup_insert_ne.
  - pose proof (sort_by_start_nonempty r R') as Hnz.
    unfold _merge_busy_ranges.
    destruct (sort_by_start (r :: R')) as [|first rest] eqn:Hsort; [done |].
    unfold alloc.
    set (h1 := <[l := first :: rest]> h).
    pose proof (is_fresh (dom h1)) as Hf.
    set (l' := fresh (dom h1)) in *.
    assert (Hf' : (l' ∉ dom h) /\ l' <> l).
    { unfold h1 in Hf. rewrite dom_insert_L in Hf. clear - Hf. set_solver. }
    destruct Hf' as [Hfh Hne].
    eexists l', _. split; [reflexivity |].
    split; [exact Hfh |]. split; [exact Hne |].
    split.
    { rewrite !lookup_insert_ne by done. unfold h1.
      by rewrite lookup_insert_eq. }
    split; [by rewrite lookup_insert_eq |].
    intros k Hkl Hk. rewrite !lookup_insert_ne by done.
    unfold h1. by rewrite lookup_insert_ne.
Qed.

(** C10. [_merge_busy_ranges] sorts the list object it is given: after
    the call that object holds the same ranges, reordered ascending by
    start (stably), the merged ranges are in a new list object, and no
    other list changed; on an unsorted argument the caller's list is
    no longer what it was. *)
Theorem merge_busy_ranges_sorts_argument_in_place :
  (forall (h : gmap loc (list range)) (l : loc) (R : list range),
      h !! l = Some R ->
      exists l' h',
        _merge_busy_ranges_ref l h = Some (l', h')
        /\ (l' ∉ dom h) /\ l' <> l
        /\ h' !! l = Some (sort_by_start R)
        /\ h' !! l' = Some (_merge_busy_ranges R)
        /\ (forall k, k <> l -> k <> l' -> h' !! k = h !! k))
  /\ (forall R : list range,
         sort_by_start R ≡ₚ R
         /\ StronglySorted start_le (sort_by_start R)
         /\ forall k, filter (fun x : range => x.1 = k) (sort_by_start R)
                      = filter (fun x : range => x.1 = k) R)
  /\ (exists (h h' : gmap loc (list range)) (l l' : loc) (R : list range),
         h !! l = Some R
         /\ _merge_busy_ranges_ref l h = Some (l', h')
         /\ h' !! l <> Some R).
Proof.
  split; [exact merge_busy_ranges_ref_spec |]. split.
  - intros R. split; [apply sort_by_start_perm |].
    split; [apply sort_by_start_sorted |].
    intros k. apply sort_by_start_stable.
  - set (R := [(30, 50); (10, 20)] : list range).
    set (h := {[ 0%nat := R ]} : gmap loc (list range)).
    destruct (merge_busy_ranges_ref_spec h 0%nat R) as
      (l' & h' & Hrun & _ & _ & Hl & _); [done |].
    exists h, h', 0%nat, l', R. split; [done |]. split; [exact Hrun |].
    rewrite Hl. by vm_compute.
Qed.

(** ** Facts about the free-slot calculator *)





Lemma free_candidates_from (window_end : datetime) (busy : list range)
    (acc : list range) (cursor : datetime) :
  (let '(free, c) := foldl free_step (acc, cursor) busy in
   if c <? window_end then free ++ [(c, window_end)] else free)
  = acc ++ free_from window_end cursor busy.
Proof.
  revert acc cursor. induction busy as [|b busy IH]; intros acc cursor; simpl.
  - destruct (cursor <? window_end); [reflexivity | by rewrite app_nil_r].
  - rewrite IH. destruct (cursor <? b.1); [| reflexivity].
    by rewrite <- app_assoc.
Qed.

Lemma free_candidates_unfold (window_start window_end : datetime)
    (busy : list range) :
  free_candidates window_start window_end busy
  = free_from window_end window_start busy.
Proof.
  unfold free_candidates.
  apply (free_candidates_from window_end busy [] window_start).
Qed.


Lemma busy_ranges_wf (ws we : datetime) (tz : string) (events : list event) :
  ws <= we ->
  Forall (fun e => is_cancelled e = false -> ev_start e <= ev_end e) events ->
  Forall (fun b : range => ws <= b.1 /\ b.1 <= b.2 /\ b.2 <= we)
         (busy_ranges ws we tz events).
Proof.
  intros Hw. induction 1 as [|e events He Hall IH]; simpl; [constructor |].
  destruct (is_cancelled e) eqn:Hc; [exact IH |].
  destruct ((ev_end e <=? ws) || (we <=? ev_start e)) eqn:Hskip; [exact IH |].
  apply orb_false_iff in Hskip as [H1 H2].
  apply Z.leb_gt in H1. apply Z.leb_gt in H2. specialize (He eq_refl).
  constructor; [simpl; lia | exact IH].
Qed.

Lemma merge_from_wf (we : datetime) (rest : list range) (cur : range) :
  Forall (fun b : range => b.1 <= b.2 /\ b.2 <= we) (cur :: rest) ->
  Forall (fun b : range => b.1 <= b.2 /\ b.2 <= we) (merge_from cur rest).
Proof.
  revert cur. induction rest as [|r rest IH]; intros cur Hall; simpl.
  - exact Hall.
  - apply Forall_cons in Hall as [Hc Hall].
    pose proof Hall as Hall'. apply Forall_cons in Hall' as [Hr Hrest].
    destruct (r.1 <=? cur.2).
    + apply IH. constructor; [simpl; lia | exact Hrest].
    + constructor; [exact Hc |]. by apply IH.
Qed.

Lemma merge_busy_ranges_wf (ws we : datetime) (R : list range) :
  Forall (fun b : range => ws <= b.1 /\ b.1 <= b.2 /\ b.2 <= we) R ->
  Forall (fun b : range => ws <= b.1 /\ b.1 <= b.2 /\ b.2 <= we)
         (_merge_busy_ranges R).
Proof.
  intros Hall. rewrite merge_busy_ranges_unfold.
  rewrite <- (sort_by_start_perm R) in Hall.
  destruct (sort_by_start R) as [|first rest]; [constructor |].
  assert (H1 : Forall (fun b : range => ws <= b.1) (merge_from first rest)).
  { apply merge_from_starts. eapply Forall_impl; [exact Hall |].
    simpl. intros; lia. }
  assert (H2 : Forall (fun b : range => b.1 <= b.2 /\ b.2 <= we)
                      (merge_from first rest)).
  { apply merge_from_wf. eapply Forall_impl; [exact Hall |].
    simpl. intros; lia. }
  rewrite Forall_forall in H1, H2. apply Forall_forall. intros b Hb.
  specialize (H1 b Hb). specialize (H2 b Hb). lia.
Qed.

Lemma compute_free_slots_unfold (events : list event) (target_date : Z)
    (tz : string) (duration_minutes : Z) :
  _compute_free_slots events target_date tz duration_minutes
  = filter (fun r : range => (td_minutes duration_minutes <=? r.2 - r.1) = true)
           (candidate_gaps events target_date tz).
Proof. reflexivity. Qed.





(** ** Facts about the target event resolver *)

Lemma scan_target_find (user_id : string) (target_dt : option datetime)
    (tz : string) (events : list event) :
  scan_target user_id target_dt tz events
  = List.find (accepts user_id target_dt tz) events.
Proof.
  induction events as [|e rest IH]; simpl; [reflexivity |].
  unfold accepts at 1. destruct (owner_skipped user_id e); simpl; [exact IH |].
  destruct target_dt as [t|]; [| reflexivity].
  destruct (near_target tz t e); [reflexivity | exact IH].
Qed.

Lemma find_first {A} (p : A -> bool) (l : list A) :
  match List.find p l with
  | Some x => exists pre post,
      l = pre ++ x :: post /\ p x = true /\ Forall (fun y => p y = false) pre
  | None => Forall (fun y => p y = false) l
  end.
Proof.
  induction l as [|a l IH]; simpl; [constructor |].
  destruct (p a) eqn:Hp.
  - exists [], l. split; [reflexivity |]. split; [exact Hp | constructor].
  - destruct (List.find p l) as [x|].
    + destruct IH as (pre & post & -> & Hx & Hpre).
      exists (a :: pre), post. split; [reflexivity |].
      split; [exact Hx | by constructor].
    + by constructor.
Qed.



Lemma owner_skipped_empty (e : event) : owner_skipped EmptyString e = false.
Proof. reflexivity. Qed.




(** ** Facts about the message handler *)

Ltac run_monad :=
  unfold mbind, M_bind, bind, mret, M_ret, ret, raise, lift, event_id_of,
    _list_events, events_insert, events_update, events_delete, mutate,
    issue in *; simpl in *.



Lemma quiet_refl (w : world S) : quiet w w.
Proof.
  split; [reflexivity |]. exists []. split; [by rewrite app_nil_r | constructor].
Qed.

Lemma quiet_append_log (lg : log) (w w' : world S) :
  quiet w w' -> quiet w (_append_log lg w').
Proof. unfold _append_log. by destruct (append_ok lg). Qed.

Ltac solve_quiet :=
  split; [reflexivity |]; simpl; eexists; split;
  [rewrite <- ?app_assoc; reflexivity | repeat constructor].

Lemma decide_intent_quiet (text user_id mode calendar_id : string)
    (d : intent_data) (l : log) (w w1 : world S)
    (res : res (message * log)) :
  decide_intent text user_id mode calendar_id d l w = (res, w1) ->
  match res with
  | Ok r =>
      log_error r.2 = log_error l
      /\ (log_status r.2 = "not_found"%string
          \/ log_status r.2 = "conflict"%string -> quiet w w1)
  | Raise e0 => forall msg, e0 = ValueError msg -> quiet w w1
  end.
Proof.
  unfold decide_intent, book, refuse, _find_target_event.
  intros Hrun. run_monad.
  repeat (first [progress run_monad | case_match; simplify_eq]);
    try (intros msg Hmsg; try discriminate Hmsg; first [apply quiet_refl | solve_quiet]);
    try (split; [reflexivity |]; intros [Hst | Hst]; try discriminate Hst;
         first [apply quiet_refl | solve_quiet]).
Qed.

(** C8. A reply of not-found or of refusal, and a reply to a request
    that failed with a value error (the validation of a new or changed
    booking with no start or no end among them), leave the calendar as
    it was: the store is unchanged and every call issued was a listing.
    The validation failure issues no call at all. *)
Theorem refusals_leave_calendar_untouched (text user_id : string)
    (w : world S) :
  (forall (r : message * log) (w' : world S),
      _handle_message text user_id w = (Ok r, w') ->
      log_status r.2 = "not_found"%string
      \/ log_status r.2 = "conflict"%string
      \/ (exists msg, log_error r.2 = Some (ValueError msg)) ->
      quiet w w')
  /\ (forall (calendar_id sheet_id : string) (d : intent_data),
         _get_env "CALENDAR_ID" = Ok calendar_id ->
         _get_env "SPREADSHEET_ID" = Ok sheet_id ->
         _extract_intent text (_detect_mode text) DEFAULT_TIMEZONE = Ok d ->
         intent d = "new"%string \/ intent d = "change"%string ->
         start_dt d = None \/ end_dt d = None ->
         exists lg,
           log_status lg = "error"%string
           /\ log_error lg = Some (ValueError "start/end")
           /\ _handle_message text user_id w
              = (Ok (MsgError, lg), _append_log lg w)).
Proof.
  split.
  - intros r w' Hrun Hst. unfold _handle_message in Hrun.
    destruct (_get_env "CALENDAR_ID") as [calendar_id | e1]; [| done].
    destruct (_get_env "SPREADSHEET_ID") as [sheet_id | e2]; [| done].
    destruct (_extract_intent text (_detect_mode text) DEFAULT_TIMEZONE)
      as [d | e3].
    + destruct (decide_intent text user_id (_detect_mode text) calendar_id d
                  (Log (Some (intent d)) (start_dt d) (end_dt d) "error"
                       None None) w) as [[r0 | e0] w1] eqn:Hd;
        pose proof (decide_intent_quiet _ _ _ _ _ _ _ _ _ Hd) as Hq;
        simpl in Hq; injection Hrun as <- <-; apply quiet_append_log.
      * destruct Hq as [Herr Hq].
        destruct Hst as [Hst | [Hst | [msg Hst]]];
          [apply Hq; by left | apply Hq; by right | congruence].
      * simpl in Hst.
        destruct Hst as [Hst | [Hst | [msg Hst]]]; [done | done |].
        apply (Hq msg). congruence.
    + injection Hrun as <- <-. apply quiet_append_log, quiet_refl.
  - intros calendar_id sheet_id d Hcid Hsid Hext Hint Hmiss.
    eexists. split; [| split]; cycle 2.
    { unfold _handle_message. rewrite Hcid, Hsid, Hext.
      unfold decide_intent.
      assert (Hv : ((intent d =? "new")%string || (intent d =? "change")%string)
                   && (missing (start_dt d) || missing (end_dt d)) = true).
      { apply andb_true_iff. split.
        - destruct Hint as [-> | ->]; reflexivity.
        - destruct Hmiss as [-> | ->]; [reflexivity |].
          by destruct (start_dt d). }
      rewrite Hv. reflexivity. }
    all: reflexivity.
Qed.

(** ** More on the free-slot calculator *)

(** The starts of the merged ranges are starts of the ranges given. *)
Lemma merge_from_start_pred (P : datetime -> Prop) (rest : list range)
    (cur : range) :
  Forall (fun r : range => P r.1) (cur :: rest) ->
  Forall (fun r : range => P r.1) (merge_from cur rest).
Proof.
  revert cur. induction rest as [|r rest IH]; intros cur Hall; simpl.
  - exact Hall.
  - apply Forall_cons in Hall as [Hc Hall].
    pose proof Hall as Hall'. apply Forall_cons in Hall' as [Hr Hrest].
    destruct (r.1 <=? cur.2).
    + apply IH. by constructor.
    + constructor; [exact Hc |]. by apply IH.
Qed.

Lemma merge_busy_ranges_start_pred (P : datetime -> Prop) (R : list range) :
  Forall (fun r : range => P r.1) R ->
  Forall (fun r : range => P r.1) (_merge_busy_ranges R).
Proof.
  intros Hall. rewrite merge_busy_ranges_unfold.
  rewrite <- (sort_by_start_perm R) in Hall.
  destruct (sort_by_start R) as [|first rest]; [constructor |].
  by apply merge_from_start_pred.
Qed.

Lemma busy_ranges_starts (ws we : datetime) (tz : string)
    (events : list event) :
  Forall (fun b : range => ws <= b.1 <= Z.max ws we)
         (busy_ranges ws we tz events).
Proof.
  induction events as [|e events IH]; simpl; [constructor |].
  destruct (is_cancelled e); [exact IH |].
  destruct ((ev_end e <=? ws) || (we <=? ev_start e)) eqn:Hskip; [exact IH |].
  apply orb_false_iff in Hskip as [_ H2]. apply Z.leb_gt in H2.
  constructor; [simpl; lia | exact IH].
Qed.

(** An instant of the window that a kept event holds is in a busy range. *)
Lemma busy_ranges_cover (ws we : datetime) (tz : string)
    (events : list event) (e : event) (t : datetime) :
  e ∈ events -> is_cancelled e = false ->
  ws <= t < we -> ev_start e <= t < ev_end e ->
  covered t (busy_ranges ws we tz events).
Proof.
  intros Hin Hc Hw Ht. induction events as [|e' events IH];
    [by apply elem_of_nil in Hin |].
  apply elem_of_cons in Hin as [<- | Hin].
  - simpl. rewrite Hc.
    destruct ((ev_end e <=? ws) || (we <=? ev_start e)) eqn:Hskip.
    + apply orb_true_iff in Hskip as [H1 | H1]; apply Z.leb_le in H1; lia.
    + apply covered_cons. left. unfold in_range. simpl. lia.
  - specialize (IH Hin). simpl.
    destruct (is_cancelled e'); [exact IH |].
    destruct ((ev_end e' <=? ws) || (we <=? ev_start e')); [exact IH |].
    apply covered_cons. by right.
Qed.

Lemma free_from_lower (we : datetime) (busy : list range)
    (cursor : datetime) (g : range) :
  g ∈ free_from we cursor busy -> cursor <= g.1 /\ g.1 < g.2.
Proof.
  revert cursor. induction busy as [|b busy IH]; intros cursor Hg.
  - simpl in Hg. destruct (cursor <? we) eqn:Hlt; [| by apply elem_of_nil in Hg].
    apply Z.ltb_lt in Hlt. apply list_elem_of_singleton in Hg as ->.
    simpl. lia.
  - simpl in Hg. apply elem_of_app in Hg as [Hg | Hg].
    + destruct (cursor <? b.1) eqn:Hlt; [| by apply elem_of_nil in Hg].
      apply Z.ltb_lt in Hlt. apply list_elem_of_singleton in Hg as ->.
      simpl. lia.
    + destruct (IH _ Hg) as [H1 H2]. lia.
Qed.

Lemma free_from_upper (we U : datetime) (busy : list range)
    (cursor : datetime) (g : range) :
  Forall (fun b : range => b.1 <= U) busy ->
  g ∈ free_from we cursor busy -> g.2 <= Z.max U we.
Proof.
  revert cursor. induction busy as [|b busy IH]; intros cursor Hall Hg.
  - simpl in Hg. destruct (cursor <? we); [| by apply elem_of_nil in Hg].
    apply list_elem_of_singleton in Hg as ->. simpl. lia.
  - apply Forall_cons in Hall as [Hb Hall]. simpl in Hg.
    apply elem_of_app in Hg as [Hg | Hg]; [| by eapply IH].
    destruct (cursor <? b.1); [| by apply elem_of_nil in Hg].
    apply list_elem_of_singleton in Hg as ->. simpl. lia.
Qed.

(** A gap lies after the busy ranges behind the cursor and before those
    ahead of it. *)
Lemma free_from_avoids (we : datetime) (busy : list range)
    (cursor : datetime) (g b : range) (t : datetime) :
  StronglySorted start_le busy ->
  g ∈ free_from we cursor busy -> b ∈ busy ->
  in_range t g -> ~ in_range t b.
Proof.
  revert cursor. induction busy as [|b0 busy IH]; intros cursor Hs Hg Hb Ht;
    [by apply elem_of_nil in Hb |].
  apply StronglySorted_inv in Hs as [Hs Hall]. simpl in Hg.
  apply elem_of_app in Hg as [Hg | Hg].
  - destruct (cursor <? b0.1) eqn:Hlt; [| by apply elem_of_nil in Hg].
    apply list_elem_of_singleton in Hg as ->.
    unfold in_range in *. simpl in Ht.
    apply elem_of_cons in Hb as [-> | Hb]; [lia |].
    rewrite Forall_forall in Hall. specialize (Hall b Hb).
    unfold start_le in Hall. lia.
  - apply elem_of_cons in Hb as [-> | Hb]; [| by eapply IH].
    destruct (free_from_lower _ _ _ _ Hg) as [Hlow _].
    unfold in_range in *. lia.
Qed.

Lemma candidate_gap_bounds (events : list event) (target_date : Z)
    (tz : string) (g : range) :
  g ∈ candidate_gaps events target_date tz ->
  (work_window target_date tz).1 <= g.1
  /\ g.1 < g.2
  /\ g.2 <= (work_window target_date tz).2.
Proof.
  unfold candidate_gaps. simpl. rewrite free_candidates_unfold. intros Hg.
  destruct (free_from_lower _ _ _ _ Hg) as [H1 H2].
  pose proof (free_from_upper _
                (Z.max (combine target_date WORK_START tz)
                       (combine target_date WORK_END tz)) _ _ _
                (Forall_impl _ _ _
                   (merge_busy_ranges_start_pred
                      (fun x => combine target_date WORK_START tz <= x
                                <= Z.max (combine target_date WORK_START tz)
                                         (combine target_date WORK_END tz))
                      _ (busy_ranges_starts _ _ tz events))
                   (fun b Hb => proj2 Hb))
                Hg) as H3.
  lia.
Qed.



Lemma free_slot_avoids (events : list event) (target_date : Z)
    (tz : string) (duration_minutes : Z) (slot : range) (e : event)
    (t : datetime) :
  slot ∈ _compute_free_slots events target_date tz duration_minutes ->
  e ∈ events ->
  is_cancelled e = false ->
  in_range t slot ->
  ~ in_range t (ev_start e, ev_end e).
Proof.
  rewrite compute_free_slots_unfold. intros Hslot He Hc Ht Hev.
  apply list_elem_of_filter in Hslot as [_ Hg].
  destruct (candidate_gap_bounds _ _ _ _ Hg) as (H1 & H2 & H3).
  unfold candidate_gaps in Hg. simpl in Hg.
  rewrite free_candidates_unfold in Hg.
  assert (Hcov : covered t (merged_busy events target_date tz)).
  { unfold merged_busy. apply merge_busy_ranges_covered.
    apply (busy_ranges_cover _ _ tz events e t He Hc);
      unfold in_range in *; simpl in *; lia. }
  unfold covered in Hcov. apply Exists_exists in Hcov as (b & Hb & Htb).
  eapply free_from_avoids; [| exact Hg | exact Hb | exact Ht | exact Htb].
  apply merge_busy_ranges_start_sorted.
Qed.

(** X2. No slot returned shares an instant with an event of the list
    that is not cancelled. *)
Theorem free_slots_avoid_events (events : list event) (target_date : Z)
    (tz : string) (duration_minutes : Z) (slot : range) (e : event)
    (t : datetime) :
  slot ∈ _compute_free_slots events target_date tz duration_minutes ->
  e ∈ events ->
  is_cancelled e = false ->
  in_range t slot ->
  ~ in_range t (ev_start e, ev_end e).
Proof. apply free_slot_avoids. Qed.

Lemma StronglySorted_filter {A} (R : A -> A -> Prop) (P : A -> Prop)
    `{!forall x, Decision (P x)} (l : list A) :
  StronglySorted R l -> StronglySorted R (filter P l).
Proof.
  induction 1 as [|x l Hl IH Hall]; [constructor |].
  rewrite filter_cons. case_decide; [| exact IH].
  constructor; [exact IH |].
  apply Forall_forall. intros y Hy. apply list_elem_of_filter in Hy as [_ Hy].
  rewrite Forall_forall in Hall. by apply Hall.
Qed.

Lemma free_from_chronological (we : datetime) (busy : list range)
    (cursor : datetime) :
  Forall (fun b : range => b.1 <= b.2) busy ->
  StronglySorted before (free_from we cursor busy).
Proof.
  revert cursor. induction busy as [|b busy IH]; intros cursor Hall; simpl.
  - destruct (cursor <? we); repeat constructor.
  - apply Forall_cons in Hall as [Hb Hall].
    destruct (cursor <? b.1); simpl; [| by apply IH].
    constructor; [by apply IH |].
    apply Forall_forall. intros g Hg.
    destruct (free_from_lower _ _ _ _ Hg) as [Hlow _].
    unfold before. simpl. lia.
Qed.

(** X3. For a window that does not end before it starts and events that
    do not end before they start, the slots come in chronological order
    and none starts before the one before it has ended. *)
Theorem free_slots_chronological (events : list event) (target_date : Z)
    (tz : string) (duration_minutes : Z) :
  (work_window target_date tz).1 <= (work_window target_date tz).2 ->
  Forall (fun e => is_cancelled e = false -> ev_start e <= ev_end e) events ->
  StronglySorted before
    (_compute_free_slots events target_date tz duration_minutes).
Proof.
  intros Hw Hev. rewrite compute_free_slots_unfold.
  apply StronglySorted_filter. unfold candidate_gaps. simpl.
  rewrite free_candidates_unfold. apply free_from_chronological.
  pose proof (merge_busy_ranges_wf _ _ _
                (busy_ranges_wf _ _ tz events Hw Hev)) as Hwf.
  eapply Forall_impl; [exact Hwf |]. simpl. intros b Hb. lia.
Qed.




(** ** More on the target event resolver *)


(** ** More on the message handler *)


(** X7. With CALENDAR_ID or SPREADSHEET_ID unset or empty the handler
    raises a value error at once: no call goes out and no log row is
    written. When the intent cannot be extracted the handler replies
    with the error message, logs one row of status error that carries
    the exception, and issues no call. *)
Theorem handle_message_early_failures (text user_id : string) (w : world S) :
  ((environ "CALENDAR_ID" = None \/ environ "CALENDAR_ID" = Some EmptyString
    \/ ((exists v, _get_env "CALENDAR_ID" = Ok v)
        /\ (environ "SPREADSHEET_ID" = None
            \/ environ "SPREADSHEET_ID" = Some EmptyString))) ->
   exists name, _handle_message text user_id w = (Raise (ValueError name), w))
  /\ (forall (calendar_id sheet_id : string) (e : exn),
         _get_env "CALENDAR_ID" = Ok calendar_id ->
         _get_env "SPREADSHEET_ID" = Ok sheet_id ->
         _extract_intent text (_detect_mode text) DEFAULT_TIMEZONE = Raise e ->
         _handle_message text user_id w
         = (Ok (MsgError,
                Log None None None "error" (Some MsgError) (Some e)),
            _append_log
              (Log None None None "error" (Some MsgError) (Some e)) w)).
Proof.
  split.
  - intros Henv. unfold _handle_message, _get_env in *.
    destruct Henv as [Hc | [Hc | [[v Hv] Hs]]].
    + rewrite Hc. by eexists.
    + rewrite Hc. simpl. by eexists.
    + rewrite Hv. destruct Hs as [Hs | Hs]; rewrite Hs; simpl; by eexists.
  - intros calendar_id sheet_id e Hcid Hsid Hext.
    unfold _handle_message. rewrite Hcid, Hsid, Hext. reflexivity.
Qed.

Ltac solve_listing_only :=
  left; split; [repeat constructor |]; split; [reflexivity |];
  simpl; first [exact I | by left | by right].

Ltac finish_write :=
  eexists; (split; [reflexivity |]); (split; [repeat constructor |]);
  simpl; first [ (split; [eassumption | reflexivity])
               | (split; [reflexivity |]; split; [reflexivity | reflexivity]) ].

Ltac solve_write_last :=
  right;
  first [ eexists nil; finish_write
        | eexists (cons _ nil); finish_write
        | eexists (cons _ (cons _ nil)); finish_write ].

Lemma decide_intent_trace (text user_id mode calendar_id : string)
    (d : intent_data) (l : log) (w w1 : world S)
    (res : res (message * log)) :
  decide_intent text user_id mode calendar_id d l w = (res, w1) ->
  w_rows w1 = w_rows w
  /\ exists cs,
       w_calls w1 = w_calls w ++ cs
       /\ (length cs <= 3)%nat
       /\ ((Forall (fun c => is_mutation c = false) cs
            /\ w_cal w1 = w_cal w
            /\ match res with
               | Ok r => log_status r.2 = "not_found"%string
                         \/ log_status r.2 = "conflict"%string
               | Raise _ => True
               end)
           \/ exists pre m,
                cs = pre ++ [m]
                /\ Forall (fun c => is_mutation c = false) pre
                /\ match res with
                   | Ok r => applied m (w_cal w) (w_cal w1)
                             /\ log_status r.2 = status_of_write m
                   | Raise e => e = UpstreamError
                                /\ w_cal w1 = w_cal w
                                /\ is_mutation m = true
                   end).
Proof.
  unfold decide_intent, book, refuse, _find_target_event.
  intros Hrun. run_monad.
  repeat (first [progress run_monad | case_match; simplify_eq]);
    (split; [reflexivity |]); simpl;
    (eexists; split;
     [first [ rewrite <- ?app_assoc; simpl; reflexivity
            | symmetry; apply app_nil_r ] |]);
    (split; [simpl; lia |]);
    first [solve_listing_only | solve_write_last].
Qed.

Lemma decide_intent_log (text user_id mode calendar_id : string)
    (d : intent_data) (l : log) (w w1 : world S) (m : message) (lg : log) :
  decide_intent text user_id mode calendar_id d l w = (Ok (m, lg), w1) ->
  log_message lg = Some m
  /\ log_status lg = status_of_message m
  /\ m <> MsgError
  /\ log_error lg = log_error l
  /\ log_intent lg = log_intent l
  /\ log_start lg = log_start l
  /\ log_end lg = log_end l.
Proof.
  unfold decide_intent, book, refuse, _find_target_event.
  intros Hrun. run_monad.
  repeat (first [progress run_monad | case_match; simplify_eq]);
    repeat split; done.
Qed.

Lemma append_log_calendar (lg : log) (w : world S) :
  w_cal (_append_log lg w) = w_cal w
  /\ w_calls (_append_log lg w) = w_calls w
  /\ w_rows (_append_log lg w)
     = w_rows w ++ (if append_ok lg then [lg] else []).
Proof.
  unfold _append_log. destruct (append_ok lg); simpl;
    [| rewrite app_nil_r]; done.
Qed.

(** What a run that returns is made of: the environment is set, and the
    reply is that of the [try] block or of its [except] clause. *)
Lemma handle_message_inv (text user_id : string) (w w' : world S)
    (r : message * log) :
  _handle_message text user_id w = (Ok r, w') ->
  exists (calendar_id : string) (w1 : world S),
    w' = _append_log r.2 w1
    /\ ((exists e, _extract_intent text (_detect_mode text) DEFAULT_TIMEZONE
                   = Raise e
                   /\ w1 = w
                   /\ r = on_error (Log None None None "error" None None) e)
        \/ exists d res,
             _extract_intent text (_detect_mode text) DEFAULT_TIMEZONE = Ok d
             /\ decide_intent text user_id (_detect_mode text) calendar_id d
                  (Log (Some (intent d)) (start_dt d) (end_dt d) "error"
                       None None) w
                = (res, w1)
             /\ match res with
                | Ok r0 => r = r0
                | Raise e =>
                    r = on_error (Log (Some (intent d)) (start_dt d)
                                      (end_dt d) "error" None None) e
                end).
Proof.
  intros Hrun. unfold _handle_message in Hrun.
  destruct (_get_env "CALENDAR_ID") as [calendar_id | e1]; [| done].
  destruct (_get_env "SPREADSHEET_ID") as [sheet_id | e2]; [| done].
  exists calendar_id.
  destruct (_extract_intent text (_detect_mode text) DEFAULT_TIMEZONE)
    as [d | e3].
  - destruct (decide_intent text user_id (_detect_mode text) calendar_id d
                (Log (Some (intent d)) (start_dt d) (end_dt d) "error"
                     None None) w) as [[r0 | e0] w1] eqn:Hd;
      injection Hrun as <- <-; exists w1; (split; [reflexivity |]); right;
      eexists d, _; (split; [reflexivity |]); (split; [exact Hd |]);
      reflexivity.
  - injection Hrun as <- <-. exists w. split; [reflexivity |]. left.
    exists e3. done.
Qed.

Lemma handle_message_trace_shape (text user_id : string) (w w' : world S)
    (r : message * log) :
  _handle_message text user_id w = (Ok r, w') ->
  exists cs,
    w_calls w' = w_calls w ++ cs
    /\ (length cs <= 3)%nat
    /\ exists pre,
         Forall (fun c => is_mutation c = false) pre
         /\ (cs = pre \/ exists m, cs = pre ++ [m] /\ is_mutation m = true).
Proof.
  intros Hrun.
  destruct (handle_message_inv _ _ _ _ _ Hrun)
    as (calendar_id & w1 & -> & [(e & _ & -> & _) | (d & res & _ & Hd & _)]).
  - rewrite (proj1 (proj2 (append_log_calendar r.2 w))).
    exists []. split; [by rewrite app_nil_r |]. split; [simpl; lia |].
    exists []. split; [constructor | by left].
  - rewrite (proj1 (proj2 (append_log_calendar r.2 w1))).
    destruct (decide_intent_trace _ _ _ _ _ _ _ _ _ Hd)
      as (_ & cs & Hcs & Hlen & Hshape).
    exists cs. split; [exact Hcs |]. split; [exact Hlen |].
    destruct Hshape as [(Hall & _) | (pre & m & -> & Hpre & Hm)].
    + exists cs. split; [exact Hall | by left].
    + exists pre. split; [exact Hpre |]. right. exists m.
      split; [reflexivity |].
      destruct res as [r0 | e0].
      * destruct Hm as [Happ _]. by destruct m.
      * by destruct Hm as (_ & _ & Hmut).
Qed.

(** X8. Handling one message issues at most three calls to the calendar,
    at most one of them a write, and a write is the last call issued. *)
Theorem handle_message_calls (text user_id : string) (w w' : world S)
    (r : message * log) :
  _handle_message text user_id w = (Ok r, w') ->
  exists cs,
    w_calls w' = w_calls w ++ cs
    /\ (length cs <= 3)%nat
    /\ exists pre,
         Forall (fun c => is_mutation c = false) pre
         /\ (cs = pre \/ exists m, cs = pre ++ [m] /\ is_mutation m = true).
Proof. apply handle_message_trace_shape. Qed.

Lemma handle_message_rows (text user_id : string) (w w' : world S)
    (r : message * log) :
  _handle_message text user_id w = (Ok r, w') ->
  w_rows w' = w_rows w ++ (if append_ok r.2 then [r.2] else []).
Proof.
  intros Hrun.
  destruct (handle_message_inv _ _ _ _ _ Hrun)
    as (calendar_id & w1 & -> & [(e & _ & -> & _) | (d & res & _ & Hd & _)]).
  - apply append_log_calendar.
  - rewrite (proj2 (proj2 (append_log_calendar _ w1))).
    destruct (decide_intent_trace _ _ _ _ _ _ _ _ _ Hd) as (Hrows & _).
    by rewrite Hrows.
Qed.

(** A run that raises did so on the environment, before anything. *)
Lemma handle_message_raise (text user_id : string) (w w' : world S)
    (e : exn) :
  _handle_message text user_id w = (Raise e, w') -> w' = w.
Proof.
  unfold _handle_message. intros Hrun.
  destruct (_get_env "CALENDAR_ID"); [| by injection Hrun].
  destruct (_get_env "SPREADSHEET_ID"); [| by injection Hrun].
  destruct (_extract_intent _ _ _); [| discriminate].
  destruct (decide_intent _ _ _ _ _ _ _) as [[? | ?] ?]; discriminate.
Qed.

(** X9. The store changes only with a success: either the reply is
    not-found, refusal or error and the store is as it was, or the last
    call issued is a write that succeeded, the store is its result, and
    the status logged is that of the write: created for an insert,
    updated for an update, cancelled for a delete. *)
Theorem handle_message_status_reflects_write (text user_id : string)
    (w w' : world S) (r : message * log) :
  _handle_message text user_id w = (Ok r, w') ->
  (w_cal w' = w_cal w
   /\ (log_status r.2 = "not_found"%string
       \/ log_status r.2 = "conflict"%string
       \/ log_status r.2 = "error"%string))
  \/ exists pre m,
       w_calls w' = w_calls w ++ pre ++ [m]
       /\ applied m (w_cal w) (w_cal w')
       /\ log_status r.2 = status_of_write m.
Proof.
  intros Hrun.
  destruct (handle_message_inv _ _ _ _ _ Hrun)
    as (calendar_id & w1 & -> & [(e & _ & -> & ->) | (d & res & _ & Hd & Hr)]).
  - left. rewrite (proj1 (append_log_calendar _ w)).
    split; [reflexivity |]. right. right. reflexivity.
  - rewrite (proj1 (append_log_calendar r.2 w1)).
    rewrite (proj1 (proj2 (append_log_calendar r.2 w1))).
    destruct (decide_intent_trace _ _ _ _ _ _ _ _ _ Hd)
      as (_ & cs & Hcs & _ & Hshape).
    destruct Hshape as [(_ & Hcal & Hst) | (pre & m & -> & _ & Hm)].
    + left. split; [exact Hcal |].
      destruct res as [r0 | e0]; subst r.
      * destruct Hst as [Hst | Hst]; [by left | by right; left].
      * right. right. reflexivity.
    + destruct res as [r0 | e0]; subst r.
      * right. exists pre, m. destruct Hm as [Happ Hst]. done.
      * left. destruct Hm as (_ & Hcal & _). split; [exact Hcal |].
        right. right. reflexivity.
Qed.

(** X10. Whenever the handler returns, the log it returns records the
    reply it returns and the status that goes with that reply; it
    carries an exception exactly when the reply is the error message;
    and the log sheet gains that one row, or none when the append
    failed. *)
Theorem handle_message_logs_reply (text user_id : string) (w w' : world S)
    (m : message) (lg : log) :
  _handle_message text user_id w = (Ok (m, lg), w') ->
  log_message lg = Some m
  /\ log_status lg = status_of_message m
  /\ (log_error lg = None <-> m <> MsgError)
  /\ w_rows w' = w_rows w ++ (if append_ok lg then [lg] else []).
Proof.
  intros Hrun.
  destruct (handle_message_inv _ _ _ _ _ Hrun)
    as (calendar_id & w1 & -> & [(e & _ & -> & Hr) | (d & res & _ & Hd & Hr)]);
    simpl in *.
  - injection Hr as -> ->. simpl.
    rewrite (proj2 (proj2 (append_log_calendar _ w))). simpl.
    repeat split; done.
  - rewrite (proj2 (proj2 (append_log_calendar _ w1))).
    destruct (decide_intent_trace _ _ _ _ _ _ _ _ _ Hd) as (Hrows & _).
    rewrite Hrows. destruct res as [r0 | e0].
    + subst r0.
      destruct (decide_intent_log _ _ _ _ _ _ _ _ _ _ Hd)
        as (Hm & Hst & Hne & Herr & _).
      simpl in Herr. repeat split; done.
    + injection Hr as -> ->. simpl. repeat split; done.
Qed.

(** X11. An intent that is none of new, change and cancel is booked
    like a new request when start and end are there: with no conflict on
    the proposed range it is inserted. With the start or the end
    missing it meets no validation; the listing cannot be asked for,
    and the reply is the error message with no call issued. *)
Theorem handle_other_intent (text user_id calendar_id sheet_id : string)
    (d : intent_data) (w : world S) :
  _get_env "CALENDAR_ID" = Ok calendar_id ->
  _get_env "SPREADSHEET_ID" = Ok sheet_id ->
  _extract_intent text (_detect_mode text) DEFAULT_TIMEZONE = Ok d ->
  intent d <> "new"%string ->
  intent d <> "change"%string ->
  intent d <> "cancel"%string ->
  (forall (s e : datetime) (events : list event) cal',
      start_dt d = Some s ->
      end_dt d = Some e ->
      cal_list (w_cal w) calendar_id s e = Some events ->
      _has_conflict events None = false ->
      cal_insert (w_cal w) calendar_id
        (body_of user_id (_detect_mode text) (effective_timezone d) d s e)
      = Some cal' ->
      exists lg,
        log_status lg = "created"%string
        /\ _handle_message text user_id w
           = (Ok (MsgCreated s, lg),
              _append_log lg
                (World cal'
                   (w_calls w
                    ++ [CallList calendar_id s e;
                        CallInsert calendar_id
                          (body_of user_id (_detect_mode text)
                                   (effective_timezone d) d s e)])
                   (w_rows w))))
  /\ (start_dt d = None \/ end_dt d = None ->
      exists lg,
        log_status lg = "error"%string
        /\ log_error lg = Some AttributeError
        /\ _handle_message text user_id w
           = (Ok (MsgError, lg), _append_log lg w)).
Proof.
  intros Hcid Hsid Hext Hnew Hchange Hcancel.
  apply String.eqb_neq in Hnew, Hchange, Hcancel.
  split.
  - intros s e events cal' Hs He Hlist Hconf Hins.
    eexists. split; cycle 1.
    { unfold _handle_message. rewrite Hcid, Hsid, Hext.
      unfold decide_intent, book. rewrite Hnew, Hchange, Hcancel, Hs, He.
      simpl. unfold body_of in *. run_monad. rewrite Hlist, Hconf.
      cbn [w_cal w_calls w_rows]. rewrite Hins.
      rewrite <- app_assoc. reflexivity. }
    reflexivity.
  - intros Hmiss.
    exists (Log (Some (intent d)) (start_dt d) (end_dt d) "error"
                (Some MsgError) (Some AttributeError)).
    split; [reflexivity |]. split; [reflexivity |].
    unfold _handle_message. rewrite Hcid, Hsid, Hext.
    unfold decide_intent, book. rewrite Hnew, Hchange, Hcancel. simpl.
    destruct (start_dt d), (end_dt d); try reflexivity.
    by destruct Hmiss.
Qed.



(** ** More on the interval model *)

Lemma merge_from_length (rest : list range) (cur : range) :
  (length (merge_from cur rest) <= Datatypes.S (length rest))%nat.
Proof.
  revert cur. induction rest as [|r rest IH]; intros cur; simpl; [lia |].
  destruct (r.1 <=? cur.2); simpl.
  - specialize (IH (cur.1, Z.max cur.2 r.2)). lia.
  - specialize (IH r). lia.
Qed.

Lemma merge_from_end_pred (Q : datetime -> Prop) (rest : list range)
    (cur : range) :
  (forall a b, Q a -> Q b -> Q (Z.max a b)) ->
  Forall (fun r : range => Q r.2) (cur :: rest) ->
  Forall (fun r : range => Q r.2) (merge_from cur rest).
Proof.
  intros Hmax. revert cur.
  induction rest as [|r rest IH]; intros cur Hall; simpl.
  - exact Hall.
  - apply Forall_cons in Hall as [Hc Hall].
    pose proof Hall as Hall'. apply Forall_cons in Hall' as [Hr Hrest].
    destruct (r.1 <=? cur.2).
    + apply IH. constructor; [simpl; by apply Hmax | exact Hrest].
    + constructor; [exact Hc |]. by apply IH.
Qed.

Lemma merge_from_contains (rest : list range) (cur x : range) :
  StronglySorted start_le (cur :: rest) ->
  x ∈ rest \/ (cur.1 <= x.1 /\ x.2 <= cur.2) ->
  exists m, m ∈ merge_from cur rest /\ m.1 <= x.1 /\ x.2 <= m.2.
Proof.
  revert cur. induction rest as [|r rest IH]; intros cur Hs Hx; simpl.
  - destruct Hx as [Hx | Hx]; [by apply elem_of_nil in Hx |].
    exists cur. split; [apply list_elem_of_here | exact Hx].
  - apply StronglySorted_inv in Hs as [Hrest Hcur].
    pose proof Hrest as Hrest'.
    apply StronglySorted_inv in Hrest' as [Hrr Hr].
    apply Forall_cons in Hcur as [Hle Hcur]. unfold start_le in Hle.
    destruct (r.1 <=? cur.2) eqn:Hm.
    + apply IH.
      * constructor; [exact Hrr |].
        eapply Forall_impl; [exact Hcur |]. unfold start_le. simpl. done.
      * destruct Hx as [Hx | Hx].
        -- apply elem_of_cons in Hx as [-> | Hx]; [| by left].
           right. simpl. lia.
        -- right. simpl. lia.
    + destruct Hx as [Hx | Hx].
      * destruct (IH r Hrest) as (m & Hin & Hm1).
        { apply elem_of_cons in Hx as [-> | Hx]; [right; lia | by left]. }
        exists m. split; [by apply list_elem_of_further | exact Hm1].
      * exists cur. split; [apply list_elem_of_here | exact Hx].
Qed.

Lemma merge_from_nonempty_ranges (rest : list range) (cur : range) :
  Forall (fun r : range => r.1 < r.2) (cur :: rest) ->
  Forall (fun r : range => r.1 < r.2) (merge_from cur rest).
Proof.
  revert cur. induction rest as [|r rest IH]; intros cur Hall; simpl.
  - exact Hall.
  - apply Forall_cons in Hall as [Hc Hall].
    pose proof Hall as Hall'. apply Forall_cons in Hall' as [Hr Hrest].
    destruct (r.1 <=? cur.2).
    + apply IH. constructor; [simpl; lia | exact Hrest].
    + constructor; [exact Hc |]. by apply IH.
Qed.

(** X13. Merging never adds ranges: the result is no longer than the
    input, each merged range starts where some given range starts and
    ends where some given range ends, every given range lies within one
    merged range, and when no given range is empty no merged range is. *)
Theorem merge_busy_ranges_spans (R : list range) :
  (length (_merge_busy_ranges R) <= length R)%nat
  /\ (forall m, m ∈ _merge_busy_ranges R ->
        (exists r, r ∈ R /\ r.1 = m.1) /\ (exists r, r ∈ R /\ r.2 = m.2))
  /\ (forall r, r ∈ R ->
        exists m, m ∈ _merge_busy_ranges R /\ m.1 <= r.1 /\ r.2 <= m.2)
  /\ (Forall (fun r : range => r.1 < r.2) R ->
      Forall (fun r : range => r.1 < r.2) (_merge_busy_ranges R)).
Proof.
  rewrite merge_busy_ranges_unfold.
  pose proof (sort_by_start_perm R) as HP.
  pose proof (sort_by_start_sorted R) as Hs.
  destruct (sort_by_start R) as [|first rest] eqn:Hsort.
  { apply Permutation_nil_l in HP. subst R.
    split; [simpl; lia |].
    split; [intros m Hm; by apply elem_of_nil in Hm |].
    split; [intros r Hr; by apply elem_of_nil in Hr |].
    intros _. constructor. }
  split; [| split; [| split]].
  - rewrite <- HP. apply merge_from_length.
  - intros m Hm. split.
    + assert (Hall : Forall (fun r : range => exists r', r' ∈ R /\ r'.1 = r.1)
                            (merge_from first rest)).
      { apply (merge_from_start_pred
                 (fun x => exists r', r' ∈ R /\ r'.1 = x)).
        apply Forall_forall. intros r Hr. exists r.
        split; [by rewrite <- HP | reflexivity]. }
      rewrite Forall_forall in Hall. by apply Hall.
    + assert (Hall : Forall (fun r : range => exists r', r' ∈ R /\ r'.2 = r.2)
                            (merge_from first rest)).
      { apply (merge_from_end_pred
                 (fun x => exists r', r' ∈ R /\ r'.2 = x)).
        - intros a b Ha Hb.
          destruct (Z.max_spec a b) as [[_ ->] | [_ ->]]; assumption.
        - apply Forall_forall. intros r Hr. exists r.
          split; [by rewrite <- HP | reflexivity]. }
      rewrite Forall_forall in Hall. by apply Hall.
  - intros r Hr. rewrite <- HP in Hr.
    apply merge_from_contains; [exact Hs |].
    apply elem_of_cons in Hr as [-> | Hr]; [right; lia | by left].
  - intros Hall. rewrite <- HP in Hall. by apply merge_from_nonempty_ranges.
Qed.

(** ** More on the conflict detector *)

Lemma has_conflict_existsb (events : list event) (x : option string) :
  _has_conflict events x
  = existsb (fun e => negb (is_cancelled e)
                      && negb (truthy x && opt_string_eqb (ev_id e) x))
            events.
Proof.
  induction events as [|e events IH]; simpl; [reflexivity |].
  destruct (is_cancelled e); simpl; [exact IH |].
  destruct (truthy x && opt_string_eqb (ev_id e) x); simpl;
    [exact IH | reflexivity].
Qed.

(** X14. The answer of the detector does not depend on the order of the
    events and is the disjunction over any split of the list; an
    exclusion id can only take a conflict away; and a list in which every
    event is cancelled or carries the (non-empty) excluded id raises no
    conflict. *)
Theorem has_conflict_order_free :
  (forall (l1 l2 : list event) (x : option string),
      _has_conflict (l1 ++ l2) x = _has_conflict l1 x || _has_conflict l2 x)
  /\ (forall (l1 l2 : list event) (x : option string),
         l1 ≡ₚ l2 -> _has_conflict l1 x = _has_conflict l2 x)
  /\ (forall (events : list event) (x : option string),
         _has_conflict events x = true -> _has_conflict events None = true)
  /\ (forall (events : list event) (target_id : string),
         target_id <> EmptyString ->
         Forall (fun e => is_cancelled e = true \/ ev_id e = Some target_id)
                events ->
         _has_conflict events (Some target_id) = false).
Proof.
  split; [| split; [| split]].
  - intros l1 l2 x. rewrite !has_conflict_existsb. apply existsb_app.
  - intros l1 l2 x HP.
    destruct (_has_conflict l1 x) eqn:H1; destruct (_has_conflict l2 x) eqn:H2;
      try reflexivity.
    + apply has_conflict_iff in H1 as (e & Hin & He).
      rewrite HP in Hin.
      assert (_has_conflict l2 x = true) by (apply has_conflict_iff; eauto).
      congruence.
    + apply has_conflict_iff in H2 as (e & Hin & He).
      rewrite <- HP in Hin.
      assert (_has_conflict l1 x = true) by (apply has_conflict_iff; eauto).
      congruence.
  - intros events x Hc. apply has_conflict_iff in Hc as (e & Hin & Hs & _).
    apply has_conflict_iff. exists e. split; [exact Hin |].
    split; [exact Hs |]. intros [(s & Hsome & _) _]. discriminate.
  - intros events target_id Hne Hall.
    destruct (_has_conflict events (Some target_id)) eqn:Hc; [| reflexivity].
    apply has_conflict_iff in Hc as (e & Hin & Hs & Hx).
    rewrite Forall_forall in Hall. destruct (Hall e Hin) as [Hcan | Hid].
    + apply is_cancelled_spec in Hcan. contradiction.
    + exfalso. apply Hx. split; [| exact Hid]. by exists target_id.
Qed.

(** ** The description written for a booking *)

Lemma append_cons (c : Ascii.ascii) (a b : string) :
  String.append (String c a) b = String c (String.append a b).
Proof. reflexivity. Qed.

Lemma append_nil_l (a : string) : String.append EmptyString a = a.
Proof. reflexivity. Qed.

Lemma append_assoc (a b c : string) :
  String.append (String.append a b) c = String.append a (String.append b c).
Proof.
  induction a as [|x a IH]; [reflexivity |].
  rewrite !append_cons. by rewrite IH.
Qed.

Lemma append_nil_r (a : string) : String.append a EmptyString = a.
Proof.
  induction a as [|x a IH]; [reflexivity |]. rewrite append_cons. by rewrite IH.
Qed.

Lemma prefix_append (a b : string) : String.prefix a (String.append a b) = true.
Proof.
  induction a as [|x a IH]; [by destruct b |].
  rewrite append_cons. simpl.
  destruct (Ascii.ascii_dec x x); [exact IH | done].
Qed.

Lemma contains_prefix (a s : string) :
  String.prefix a s = true -> contains a s = true.
Proof.
  intros Hp. destruct s as [|c s]; unfold contains; fold contains;
    by rewrite Hp.
Qed.

Lemma all_bytes_append (p : Ascii.ascii -> bool) (a b : string) :
  all_bytes p (String.append a b) = all_bytes p a && all_bytes p b.
Proof.
  induction a as [|x a IH]; [reflexivity |].
  rewrite append_cons. simpl. rewrite IH. by rewrite andb_assoc.
Qed.

(** Two ways of cutting one string: one of the first parts is a prefix
    of the other. *)
Lemma append_split (x post k rest : string) :
  String.append x post = String.append k rest ->
  (exists m, x = String.append k m)
  \/ (exists m, k = String.append x m /\ post = String.append m rest).
Proof.
  revert k. induction x as [|c x IH]; intros k Heq.
  - right. exists k. done.
  - destruct k as [|c' k].
    + left. by exists (String c x).
    + rewrite !append_cons in Heq. injection Heq as -> Heq.
      destruct (IH k Heq) as [[m ->] | (m & -> & ->)].
      * left. by exists m.
      * right. by exists m.
Qed.

Lemma append_snoc_inv (x m k0 : string) (c : Ascii.ascii) :
  String.append x m = String.append k0 (String c EmptyString) ->
  m = EmptyString \/ exists m0, m = String.append m0 (String c EmptyString).
Proof.
  revert k0. induction x as [|a x IH]; intros k0 Heq.
  - right. by exists k0.
  - destruct k0 as [|b k0]; rewrite !append_cons in Heq.
    + rewrite append_nil_l in Heq. injection Heq as _ Heq. left.
      destruct x; [exact Heq | rewrite append_cons in Heq; discriminate].
    + injection Heq as _ Heq. by apply (IH k0).
Qed.

(** Stripping the description leaves the owner's marker at its head. *)
Lemma description_keeps_marker (user_id mode notes_ : string) :
  trims_whitespace strip ->
  String.prefix (owner_marker user_id) (description_of user_id mode notes_)
  = true.
Proof.
  intros Hstrip. unfold description_of.
  set (tail := String.append mode (String.append nl notes_)).
  set (s := String.append (owner_marker user_id)
              (String.append nl (String.append "MODE:" tail))).
  destruct (Hstrip s) as (pre & post & Hs & Hpre & Hpost).
  assert (Hpre0 : pre = EmptyString).
  { destruct pre as [|c pre]; [reflexivity |].
    assert (Hhead : exists t, s = String (Ascii.ascii_of_nat 76) t)
      by (eexists; reflexivity).
    destruct Hhead as [t Ht]. rewrite Ht, append_cons in Hs.
    injection Hs as <- _. simpl in Hpre. discriminate. }
  subst pre. rewrite append_nil_l in Hs.
  set (k0 := String.append (owner_marker user_id) (String.append nl "MODE")).
  assert (Hk : s = String.append (String.append k0 ":") tail).
  { unfold s, k0. rewrite !append_assoc. reflexivity. }
  assert (Hs' : String.append (strip s) post
                = String.append (String.append k0 ":") tail)
    by (rewrite <- Hk; by symmetry).
  destruct (append_split _ _ _ _ Hs') as [[m Hm] | (m & Hm & Hpost')].
  - rewrite Hm. unfold k0. rewrite !append_assoc. apply prefix_append.
  - destruct (append_snoc_inv _ _ _ _ (eq_sym Hm)) as [-> | [m0 ->]].
    + rewrite append_nil_r in Hm. rewrite <- Hm.
      unfold k0. rewrite !append_assoc. apply prefix_append.
    + rewrite Hpost' in Hpost. rewrite !all_bytes_append in Hpost.
      simpl in Hpost. rewrite andb_false_r in Hpost. discriminate.
Qed.

(** X15. Provided [strip] only takes whitespace off the two ends, the
    description written for a booking starts with its requester's
    marker: an event that carries it is never skipped when that
    requester's change or cancellation scans for a target, so without a
    target start the scan stops at it unless an earlier listed event is
    not skipped either. *)
Theorem booking_description_matches_owner (user_id mode notes_ tz : string)
    (e : event) (earlier later : list event) :
  trims_whitespace strip ->
  ev_description e = Some (description_of user_id mode notes_) ->
  owner_skipped user_id e = false
  /\ (Forall (fun e' => owner_skipped user_id e' = true) earlier ->
      scan_target user_id None tz (earlier ++ e :: later) = Some e).
Proof.
  intros Hstrip Hdesc.
  assert (Hown : owner_skipped user_id e = false).
  { unfold owner_skipped. rewrite Hdesc. simpl.
    rewrite (contains_prefix _ _
               (description_keeps_marker user_id mode notes_ Hstrip)).
    apply andb_false_r. }
  split; [exact Hown |].
  intros Hall. induction Hall as [|e' earlier He' Hall IH]; simpl.
  - by rewrite Hown.
  - by rewrite He'.
Qed.



(** ** The order of the ranges does not matter *)

Lemma top_ge (e : datetime) (G : list range) : e <= top e G.
Proof. induction G as [|g G IH]; simpl; lia. Qed.

Lemma top_max (e x : datetime) (G : list range) :
  top (Z.max e x) G = Z.max x (top e G).
Proof. induction G as [|g G IH]; simpl; [lia |]. rewrite IH. lia. Qed.

Lemma top_perm (e : datetime) (G G' : list range) :
  G ≡ₚ G' -> top e G = top e G'.
Proof.
  induction 1 as [| x l l' _ IH | x y l | l l' l'' _ IH1 _ IH2]; simpl;
    [reflexivity | by rewrite IH | lia | congruence].
Qed.

Lemma top_base (s e : datetime) (G : list range) :
  s <= e -> top e G = Z.max e (top s G).
Proof. intros Hle. induction G as [|g G IH]; simpl; [lia |]. rewrite IH. lia. Qed.

(** Ranges that start within the range being grown are taken into it,
    in whatever order they come. *)
Lemma merge_from_absorb (G Y : list range) (cur : range) :
  Forall (fun g : range => g.1 <= cur.2) G ->
  merge_from cur (G ++ Y) = merge_from (cur.1, top cur.2 G) Y.
Proof.
  revert cur. induction G as [|g G IH]; intros cur Hall; simpl.
  - by destruct cur.
  - apply Forall_cons in Hall as [Hg Hall].
    rewrite (proj2 (Z.leb_le _ _) Hg). rewrite IH; simpl.
    + by rewrite top_max.
    + eapply Forall_impl; [exact Hall |]. simpl. intros; lia.
Qed.

(** A list sorted by start is the ranges of its least start followed by
    the others. *)
Lemma sorted_split_least (s : datetime) (Y : list range) :
  StronglySorted start_le Y ->
  Forall (fun r : range => s <= r.1) Y ->
  Y = filter (fun r : range => r.1 = s) Y
      ++ filter (fun r : range => r.1 <> s) Y.
Proof.
  induction 1 as [|r Y HY IH Hr]; intros Hall; [reflexivity |].
  apply Forall_cons in Hall as [Hs Hall].
  rewrite !filter_cons. case_decide as Heq.
  - case_decide; [congruence |]. simpl. f_equal. by apply IH.
  - case_decide; [| congruence].
    assert (Hnone : filter (fun r : range => r.1 = s) Y = []).
    { clear IH. induction Y as [|y Y IHY]; [reflexivity |].
      apply Forall_cons in Hr as [Hy Hr]. unfold start_le in Hy.
      apply StronglySorted_inv in HY as [HY _].
      apply Forall_cons in Hall as [_ Hall].
      rewrite filter_cons. case_decide; [lia | by apply IHY]. }
    assert (Hall' : filter (fun r : range => r.1 <> s) Y = Y).
    { clear IH Hnone. induction Y as [|y Y IHY]; [reflexivity |].
      apply Forall_cons in Hr as [Hy Hr]. unfold start_le in Hy.
      apply StronglySorted_inv in HY as [HY _].
      apply Forall_cons in Hall as [_ Hall].
      rewrite filter_cons. case_decide; [| lia]. f_equal. by apply IHY. }
    rewrite Hnone, Hall'. reflexivity.
Qed.

Lemma sorted_head_least (r : range) (Y : list range) :
  StronglySorted start_le (r :: Y) ->
  Forall (fun x : range => r.1 <= x.1) (r :: Y).
Proof.
  intros Hs. apply StronglySorted_inv in Hs as [_ Hall].
  constructor; [lia | exact Hall].
Qed.

Lemma merge_from_perm (n : nat) (Y1 Y2 : list range) (cur : range) :
  (length Y1 <= n)%nat ->
  Y1 ≡ₚ Y2 ->
  StronglySorted start_le Y1 -> StronglySorted start_le Y2 ->
  Forall (fun r : range => r.1 <= r.2) Y1 ->
  merge_from cur Y1 = merge_from cur Y2.
Proof.
  revert Y1 Y2 cur. induction n as [|n IH]; intros Y1 Y2 cur Hlen HP Hs1 Hs2 Hv.
  { destruct Y1; [| simpl in Hlen; lia].
    apply Permutation_nil_l in HP. by subst. }
  destruct Y1 as [|a Y1'].
  { apply Permutation_nil_l in HP. by subst. }
  destruct Y2 as [|b Y2'].
  { symmetry in HP. by apply Permutation_nil_cons in HP. }
  pose proof (sorted_head_least _ _ Hs1) as Hl1.
  pose proof (sorted_head_least _ _ Hs2) as Hl2.
  assert (Hab : a.1 = b.1).
  { assert (Ha : a ∈ b :: Y2') by (rewrite <- HP; apply list_elem_of_here).
    assert (Hb : b ∈ a :: Y1') by (rewrite HP; apply list_elem_of_here).
    rewrite Forall_forall in Hl1, Hl2.
    specialize (Hl1 b Hb). specialize (Hl2 a Ha). simpl in *. lia. }
  rewrite <- Hab in Hl2.
  set (s := a.1) in *.
  set (G1 := filter (fun r : range => r.1 = s) (a :: Y1')).
  set (Z1 := filter (fun r : range => r.1 <> s) (a :: Y1')).
  set (G2 := filter (fun r : range => r.1 = s) (b :: Y2')).
  set (Z2 := filter (fun r : range => r.1 <> s) (b :: Y2')).
  assert (HG : G1 ≡ₚ G2) by (unfold G1, G2; by rewrite HP).
  assert (HZ : Z1 ≡ₚ Z2) by (unfold Z1, Z2; by rewrite HP).
  assert (HZlen : (length Z1 <= n)%nat).
  { assert (length Z1 < length (a :: Y1'))%nat; [| simpl in *; lia].
    unfold Z1. apply (length_filter_lt _ _ a); [apply list_elem_of_here |].
    intros Hne. by apply Hne. }
  assert (HZs1 : StronglySorted start_le Z1)
    by (by apply StronglySorted_filter).
  assert (HZs2 : StronglySorted start_le Z2)
    by (by apply StronglySorted_filter).
  assert (HZv : Forall (fun r : range => r.1 <= r.2) Z1).
  { apply Forall_forall. intros r Hr.
    apply list_elem_of_filter in Hr as [_ Hr].
    rewrite Forall_forall in Hv. by apply Hv. }
  assert (HGs1 : Forall (fun r : range => r.1 = s /\ r.1 <= r.2) G1).
  { apply Forall_forall. intros r Hr.
    apply list_elem_of_filter in Hr as [Hrs Hr]. split; [exact Hrs |].
    rewrite Forall_forall in Hv. by apply Hv. }
  assert (HGs2 : Forall (fun r : range => r.1 = s /\ r.1 <= r.2) G2).
  { rewrite <- HG. exact HGs1. }
  rewrite (sorted_split_least s (a :: Y1') Hs1 Hl1).
  rewrite (sorted_split_least s (b :: Y2') Hs2 Hl2).
  fold G1 Z1 G2 Z2.
  destruct (Z.leb_spec s cur.2) as [Hin | Hout].
  - rewrite !merge_from_absorb.
    + rewrite (top_perm _ _ _ HG). by apply IH.
    + eapply Forall_impl; [exact HGs2 |]. simpl. intros r [-> _]. exact Hin.
    + eapply Forall_impl; [exact HGs1 |]. simpl. intros r [-> _]. exact Hin.
  - assert (Hstep : forall G Z,
              G <> [] ->
              Forall (fun r : range => r.1 = s /\ r.1 <= r.2) G ->
              merge_from cur (G ++ Z) = cur :: merge_from (s, top s G) Z).
    { intros G Z Hne HGs. destruct G as [|g G]; [done |].
      apply Forall_cons in HGs as [[Hg1 Hg2] HGs]. simpl.
      rewrite Hg1. rewrite (proj2 (Z.leb_gt _ _) Hout). f_equal.
      rewrite merge_from_absorb.
      - rewrite Hg1. f_equal. f_equal.
        rewrite (top_base s g.2) by lia.
        reflexivity.
      - eapply Forall_impl; [exact HGs |]. simpl. intros r [-> _]. lia. }
    rewrite !Hstep; try done.
    + rewrite (top_perm _ _ _ HG). f_equal. by apply IH.
    + unfold G2. rewrite filter_cons. case_decide; [done | congruence].
    + unfold G1. rewrite filter_cons. by case_decide.
Qed.

Lemma merge_busy_ranges_perm (R1 R2 : list range) :
  R1 ≡ₚ R2 ->
  Forall (fun r : range => r.1 <= r.2) R1 ->
  _merge_busy_ranges R1 = _merge_busy_ranges R2.
Proof.
  intros HP Hv. rewrite !merge_busy_ranges_unfold.
  pose proof (sort_by_start_sorted R1) as Hs1.
  pose proof (sort_by_start_sorted R2) as Hs2.
  assert (HP' : sort_by_start R1 ≡ₚ sort_by_start R2)
    by (by rewrite !sort_by_start_perm).
  assert (Hv' : Forall (fun r : range => r.1 <= r.2) (sort_by_start R1))
    by (by rewrite sort_by_start_perm).
  destruct (sort_by_start R1) as [|a L1].
  { apply Permutation_nil_l in HP'. by rewrite <- HP'. }
  destruct (sort_by_start R2) as [|b L2].
  { symmetry in HP'. by apply Permutation_nil_cons in HP'. }
  pose proof (merge_from_perm (length (a :: L1)) (a :: L1) (b :: L2)
                (a.1 - 1, a.1 - 1) (Nat.le_refl _) HP' Hs1 Hs2 Hv') as Heq.
  assert (Hab : a.1 = b.1).
  { pose proof (sorted_head_least _ _ Hs1) as Hl1.
    pose proof (sorted_head_least _ _ Hs2) as Hl2.
    assert (Ha : a ∈ b :: L2) by (rewrite <- HP'; apply list_elem_of_here).
    assert (Hb : b ∈ a :: L1) by (rewrite HP'; apply list_elem_of_here).
    rewrite Forall_forall in Hl1, Hl2.
    specialize (Hl1 b Hb). specialize (Hl2 a Ha). simpl in *. lia. }
  simpl in Heq.
  rewrite (proj2 (Z.leb_gt a.1 (a.1 - 1))) in Heq by lia.
  rewrite (proj2 (Z.leb_gt b.1 (a.1 - 1))) in Heq by lia.
  by injection Heq.
Qed.

(** X22. When no range ends before it starts, the merged ranges do not
    depend on the order in which the ranges are given. *)
Theorem merge_busy_ranges_order_free (R1 R2 : list range) :
  R1 ≡ₚ R2 ->
  Forall (fun r : range => r.1 <= r.2) R1 ->
  _merge_busy_ranges R1 = _merge_busy_ranges R2.
Proof. apply merge_busy_ranges_perm. Qed.

Lemma busy_ranges_perm (ws we : datetime) (tz : string)
    (events1 events2 : list event) :
  events1 ≡ₚ events2 ->
  busy_ranges ws we tz events1 ≡ₚ busy_ranges ws we tz events2.
Proof.
  induction 1 as [| e l l' _ IH | e1 e2 l | l l' l'' _ IH1 _ IH2]; simpl.
  - reflexivity.
  - destruct (is_cancelled e); [exact IH |].
    destruct ((ev_end e <=? ws) || (we <=? ev_start e)); [exact IH |].
    by constructor.
  - destruct (is_cancelled e1), (is_cancelled e2);
      destruct ((ev_end e1 <=? ws) || (we <=? ev_start e1));
      destruct ((ev_end e2 <=? ws) || (we <=? ev_start e2));
      try reflexivity; apply Permutation_swap.
  - by rewrite IH1.
Qed.

(** X23. For a window that does not end before it starts and events
    that do not end before they start, the free slots do not depend on
    the order in which the events are listed. *)
Theorem free_slots_order_free (events1 events2 : list event)
    (target_date : Z) (tz : string) (duration_minutes : Z) :
  events1 ≡ₚ events2 ->
  (work_window target_date tz).1 <= (work_window target_date tz).2 ->
  Forall (fun e => is_cancelled e = false -> ev_start e <= ev_end e)
         events1 ->
  _compute_free_slots events1 target_date tz duration_minutes
  = _compute_free_slots events2 target_date tz duration_minutes.
Proof.
  intros HP Hw Hev. unfold _compute_free_slots. simpl in Hw.
  rewrite (merge_busy_ranges_perm
             (busy_ranges (combine target_date WORK_START tz)
                          (combine target_date WORK_END tz) tz events1)
             (busy_ranges (combine target_date WORK_START tz)
                          (combine target_date WORK_END tz) tz events2)).
  - reflexivity.
  - by apply busy_ranges_perm.
  - eapply Forall_impl; [exact (busy_ranges_wf _ _ tz events1 Hw Hev) |].
    simpl. intros b Hb. lia.
Qed.

Lemma scan_target_some (user_id : string) (target_dt : option datetime)
    (tz : string) (events : list event) (ev : event) :
  scan_target user_id target_dt tz events = Some ev ->
  ev ∈ events /\ owner_skipped user_id ev = false.
Proof.
  rewrite scan_target_find. intros Hfind.
  pose proof (find_first (accepts user_id target_dt tz) events) as Hf.
  rewrite Hfind in Hf. destruct Hf as (pre & post & -> & Hacc & _).
  split.
  - apply elem_of_app. right. apply list_elem_of_here.
  - unfold accepts in Hacc. apply andb_true_iff in Hacc as [Hown _].
    by apply negb_true_iff in Hown.
Qed.

Lemma decide_intent_calls_allowed (text user_id mode calendar_id : string)
    (d : intent_data) (l : log) (w w1 : world S)
    (res : res (message * log)) :
  decide_intent text user_id mode calendar_id d l w = (res, w1) ->
  exists cs,
    w_calls w1 = w_calls w ++ cs
    /\ Forall (call_allowed w user_id d) cs.
Proof.
  unfold decide_intent, book, refuse, _find_target_event.
  intros Hrun. run_monad.
  repeat (first [progress run_monad | case_match; simplify_eq]);
    (eexists; split;
     [first [ rewrite <- ?app_assoc; simpl; reflexivity
            | symmetry; apply app_nil_r ] |]);
    (apply Forall_forall; intros c Hc;
     repeat (apply elem_of_cons in Hc as [-> | Hc]);
     try (by apply elem_of_nil in Hc); simpl; try exact I);
    repeat match goal with
           | Heq : (_ =? _)%string = true |- _ => apply String.eqb_eq in Heq
           | Heq : (_ =? _)%string = false |- _ => apply String.eqb_neq in Heq
           end;
    try (split; [congruence | congruence]);
    (split; [congruence |]);
    match goal with
    | Hs : scan_target _ _ _ ?l0 = Some ?ev,
      Hsw : search_window _ = _ |- _ =>
        destruct (scan_target_some _ _ _ _ _ Hs) as [Hin Hown];
        unfold owned_target; rewrite Hsw;
        exists l0, ev; repeat split; assumption
    end.
Qed.

(** X24. A write follows the intent and the owner test: an insert is
    only issued for an intent that is neither cancel nor change, an
    update only for a change and a delete only for a cancel, and the
    event updated or deleted is one that the target lookup of that
    request listed and did not skip for its owner. *)
Theorem writes_follow_intent_and_owner (text user_id : string)
    (w w' : world S) (r : message * log) :
  _handle_message text user_id w = (Ok r, w') ->
  exists cs,
    w_calls w' = w_calls w ++ cs
    /\ Forall (fun c =>
                 is_mutation c = true ->
                 exists d,
                   _extract_intent text (_detect_mode text) DEFAULT_TIMEZONE
                   = Ok d
                   /\ call_allowed w user_id d c) cs.
Proof.
  intros Hrun.
  destruct (handle_message_inv _ _ _ _ _ Hrun)
    as (calendar_id & w1 & -> & [(e & _ & -> & _) | (d & res & Hd & Hrun' & _)]).
  - rewrite (proj1 (proj2 (append_log_calendar r.2 w))).
    exists []. split; [by rewrite app_nil_r | constructor].
  - rewrite (proj1 (proj2 (append_log_calendar r.2 w1))).
    destruct (decide_intent_calls_allowed _ _ _ _ _ _ _ _ _ Hrun')
      as (cs & Hcs & Hall).
    exists cs. split; [exact Hcs |].
    eapply Forall_impl; [exact Hall |]. intros c Hc _. by exists d.
Qed.


End Engine.

(** ** Mode detection *)

(** The keyword lists of [MODE_KEYWORDS], in the order of the dict. A
    Python [str] is held as its UTF-8 bytes; UTF-8 is self-synchronising,
    so [kw in text] on the characters is [contains] on the bytes. *)
Definition DENTAL_KEYWORDS : list string :=
  ["歯科"; "歯医者"; "検診"; "治療"; "クリーニング"; "dental"]%string.

Definition LOGISTICS_KEYWORDS : list string :=
  ["物流"; "集荷"; "配送"; "発送"; "荷物"; "引き取り"; "logistics"]%string.

Definition PROFESSIONAL_KEYWORDS : list string :=
  ["面談"; "相談"; "打ち合わせ"; "士業"; "税理"; "法律"; "社労士";
   "行政書士"; "professional"]%string.

Definition MODE_KEYWORDS : list (string * list string) :=
  [("dental"%string, DENTAL_KEYWORDS);
   ("logistics"%string, LOGISTICS_KEYWORDS);
   ("professional"%string, PROFESSIONAL_KEYWORDS)].

(** Some keyword of the list occurs in the text. *)
Definition mentions (keywords : list string) (text : string) : bool :=
  existsb (fun kw => contains kw text) keywords.

(** The nested loops return at the first mode, in dict order, one of
    whose keywords occurs in the text. *)
Definition _detect_mode (text : string) : string :=
  match List.find (fun mk : string * list string => mentions mk.2 text)
                  MODE_KEYWORDS with
  | Some mk => mk.1
  | None => "dental"%string
  end.

(** X16. The mode is always one of the three. It is logistics exactly
    when no dental keyword occurs and a logistics keyword does,
    professional exactly when neither a dental nor a logistics keyword
    occurs and a professional one does, and dental in every other case:
    when a dental keyword occurs, whatever else does, or when no keyword
    occurs at all. *)
Theorem detect_mode_priority (text : string) :
  (_detect_mode text = "dental"%string
   \/ _detect_mode text = "logistics"%string
   \/ _detect_mode text = "professional"%string)
  /\ (_detect_mode text = "logistics"%string
      <-> mentions DENTAL_KEYWORDS text = false
          /\ mentions LOGISTICS_KEYWORDS text = true)
  /\ (_detect_mode text = "professional"%string
      <-> mentions DENTAL_KEYWORDS text = false
          /\ mentions LOGISTICS_KEYWORDS text = false
          /\ mentions PROFESSIONAL_KEYWORDS text = true)
  /\ (_detect_mode text = "dental"%string
      <-> mentions DENTAL_KEYWORDS text = true
          \/ (mentions LOGISTICS_KEYWORDS text = false
              /\ mentions PROFESSIONAL_KEYWORDS text = false)).
Proof.
  unfold _detect_mode, MODE_KEYWORDS. cbn [List.find fst snd].
  destruct (mentions DENTAL_KEYWORDS text);
    destruct (mentions LOGISTICS_KEYWORDS text);
    destruct (mentions PROFESSIONAL_KEYWORDS text); cbn [fst snd];
    intuition (try discriminate; try reflexivity; auto).
Qed.

Example detect_mode_examples :
  _detect_mode "明日の検診と荷物の集荷をお願いします" = "dental"%string
  /\ _detect_mode "荷物の集荷をお願いします" = "logistics"%string
  /\ _detect_mode "税理の相談をしたい" = "professional"%string
  /\ _detect_mode "Dental checkup tomorrow" = "dental"%string
  /\ _detect_mode "hello" = "dental"%string.
Proof. repeat split; reflexivity. Qed.

(** ** Intent extraction *)

(** The JSON object of the model's reply; a key that is absent or null
    is [None]. *)
Record payload := Payload {
  p_intent : option string;
  p_start_iso : option string;
  p_end_iso : option string;
  p_target_start_iso : option string;
  p_summary : option string;
  p_notes : option string;
  p_timezone : option string
}.

(** [x or d] for an optional string [x]. *)
Definition or_else (o : option string) (d : string) : string :=
  match o with
  | Some s => if truthy o then s else d
  | None => d
  end.

Section Extraction.

(** Asking the model (mode, text) and parsing the JSON of its reply;
    the missing API key, a failed request and a reply with no JSON in it
    raise. *)
Variable generate : string -> string -> res payload.

(** [dt.datetime.fromisoformat] after the clean-up of the text, with the
    zone of the second argument when the text names none. *)
Variable fromisoformat : string -> string -> res datetime.

Variable DEFAULT_DURATION_MIN : Z.

Definition _parse_rfc3339 (value : option string) (tz : string)
  : res (option datetime) :=
  match value with
  | Some v =>
      if truthy value
      then match fromisoformat v tz with
           | Ok t => Ok (Some t)
           | Raise e => Raise e
           end
      else Ok None
  | None => Ok None
  end.

(** [end_dt] after the two defaulting steps. *)
Definition default_end (start_dt end_dt : option datetime)
  : option datetime :=
  let end_dt :=
    match start_dt, end_dt with
    | Some s, None => Some (s + td_minutes DEFAULT_DURATION_MIN)
    | _, _ => end_dt
    end in
  match start_dt, end_dt with
  | Some s, Some e =>
      if e <=? s then Some (s + td_minutes DEFAULT_DURATION_MIN) else end_dt
  | _, _ => end_dt
  end.

Definition _extract_intent (text mode tz0 : string) : res intent_data :=
  match generate mode text with
  | Raise e => Raise e
  | Ok p =>
      let intent_ := or_else (p_intent p) "new" in
      let summary_ := or_else (p_summary p) "予約" in
      let notes_ := or_else (p_notes p) EmptyString in
      let tz := or_else (p_timezone p) tz0 in
      match _parse_rfc3339 (p_start_iso p) tz with
      | Raise e => Raise e
      | Ok start_ =>
          match _parse_rfc3339 (p_end_iso p) tz with
          | Raise e => Raise e
          | Ok end_ =>
              let end_ := default_end start_ end_ in
              match _parse_rfc3339 (p_target_start_iso p) tz with
              | Raise e => Raise e
              | Ok target_ =>
                  Ok (IntentData intent_ start_ end_ target_
                                 summary_ notes_ tz)
              end
          end
      end
  end.





End Extraction.

(** ** The webhook *)

(** One entry of the webhook's [events] list, with the keys [main]
    reads: [type], [message.type], [message.text], [source.userId] and
    [replyToken]. *)
Record line_event := LineEvent {
  le_type : option string;
  le_message_type : option string;
  le_text : option string;
  le_user_id : option string;
  le_reply_token : option string
}.

(** The request: its body, its [X-Line-Signature] header and the
    [events] list read from its JSON ([None] when the JSON cannot be
    read, the empty list when it holds no such list). *)
Record http_request := HttpRequest {
  req_body : string;
  req_signature : option string;
  req_events : option (list line_event)
}.

(** The two [continue] tests of the loop. *)
Definition text_message (item : line_event) : bool :=
  opt_string_eqb (le_type item) (Some "message"%string)
  && opt_string_eqb (le_message_type item) (Some "text"%string).

(** Truthiness of the reply text: the fixed replies are not empty, the
    refusal is what the model wrote, stripped. *)
Definition reply_given (m : message) : bool :=
  match m with
  | MsgRefusal t => truthy (Some t)
  | _ => true
  end.

(** ** The handler with the module's own mode detection and extraction *)

Section Pipeline.

Context {S : Type} `{Calendar S}.

Variable combine : Z -> Z -> string -> datetime.
Variable local_date : string -> datetime -> Z.
Variable WORK_START WORK_END : Z.
Variable DEFAULT_TIMEZONE : string.
Variable DEFAULT_DURATION_MIN : Z.
Variable environ : string -> option string.
Variable now : datetime.
Variable generate : string -> string -> res payload.
Variable fromisoformat : string -> string -> res datetime.
Variable _generate_refusal_message :
  string -> string -> list string -> res string.
Variable format_slot : range -> string.
Variable strip : string -> string.
Variable append_ok : log -> bool.

(** [_handle_message] calling [_detect_mode] and [_extract_intent] as
    the module defines them. *)
Definition handle_text (text user_id : string) : M S (message * log) :=
  _handle_message combine local_date WORK_START WORK_END DEFAULT_TIMEZONE
    environ now _detect_mode
    (_extract_intent generate fromisoformat DEFAULT_DURATION_MIN)
    _generate_refusal_message format_slot strip append_ok text user_id.


(** X19. A request for a new or changed booking for which the model
    gives no start (none, null or empty) is not booked, even when an end
    is given: the reply is the error message, the log row carries the
    validation error and no call goes to the calendar. A missing intent
    counts as new. *)
Theorem request_without_start_rejected (text user_id calendar_id sheet_id : string)
    (p : payload) (end_ target_ : option datetime) (w : world S) :
  _get_env environ "CALENDAR_ID" = Ok calendar_id ->
  _get_env environ "SPREADSHEET_ID" = Ok sheet_id ->
  generate (_detect_mode text) text = Ok p ->
  truthy (p_start_iso p) = false ->
  or_else (p_intent p) "new" = "new"%string
  \/ or_else (p_intent p) "new" = "change"%string ->
  _parse_rfc3339 fromisoformat (p_end_iso p)
                 (or_else (p_timezone p) DEFAULT_TIMEZONE) = Ok end_ ->
  _parse_rfc3339 fromisoformat (p_target_start_iso p)
                 (or_else (p_timezone p) DEFAULT_TIMEZONE) = Ok target_ ->
  exists lg,
    log_status lg = "error"%string
    /\ log_error lg = Some (ValueError "start/end")
    /\ handle_text text user_id w
       = (Ok (MsgError, lg), _append_log append_ok lg w).
Proof.
  intros Hcid Hsid Hgen Hstart Hint Hend Htarget.
  assert (Hs : _parse_rfc3339 fromisoformat (p_start_iso p)
                 (or_else (p_timezone p) DEFAULT_TIMEZONE) = Ok None).
  { unfold _parse_rfc3339. rewrite Hstart. by destruct (p_start_iso p). }
  eexists. split; [| split]; cycle 2.
  { unfold handle_text, _handle_message. rewrite Hcid, Hsid.
    unfold _extract_intent. rewrite Hgen, Hs, Hend, Htarget.
    unfold decide_intent. cbn [intent start_dt end_dt].
    assert (Hv : ((or_else (p_intent p) "new" =? "new")%string
                  || (or_else (p_intent p) "new" =? "change")%string) = true).
    { destruct Hint as [-> | ->]; reflexivity. }
    rewrite Hv. reflexivity. }
  all: reflexivity.
Qed.

(** *** [main] *)

(** The HMAC check of the body against the channel secret, the loading
    of the two services and the delivery of a reply. *)
Variable hmac_ok : string -> string -> string -> bool.
Variable _get_services : res unit.
Variable _send_line_reply : string -> message -> res unit.

(** [_validate_line_signature]: an empty signature is turned down
    before the secret is read. *)
Definition _validate_line_signature (body signature : string) : res bool :=
  if truthy (Some signature)
  then match _get_env environ "LINE_CHANNEL_SECRET" with
       | Ok secret => Ok (hmac_ok secret body signature)
       | Raise e => Raise e
       end
  else Ok false.

(** The world and the replies sent so far. *)
Definition hook_state : Type := world S * list (string * message).

(** The loop of [main] over the events of the request. *)
Fixpoint handle_events (items : list line_event) (st : hook_state)
  : res unit * hook_state :=
  match items with
  | [] => (Ok tt, st)
  | item :: rest =>
      if text_message item then
        let text := default EmptyString (le_text item) in
        let user_id := default EmptyString (le_user_id item) in
        match handle_text text user_id st.1 with
        | (Raise e, w') => (Raise e, (w', st.2))
        | (Ok (reply_text, _), w') =>
            match le_reply_token item with
            | Some token =>
                if truthy (Some token) && reply_given reply_text
                then match _send_line_reply token reply_text with
                     | Ok _ =>
                         handle_events rest
                           (w', st.2 ++ [(token, reply_text)])
                     | Raise e => (Raise e, (w', st.2))
                     end
                else handle_events rest (w', st.2)
            | None => handle_events rest (w', st.2)
            end
        end
      else handle_events rest st
  end.

Definition main (req : http_request) (st : hook_state)
  : res (string * Z) * hook_state :=
  match _validate_line_signature (req_body req)
          (or_else (req_signature req) EmptyString) with
  | Raise e => (Raise e, st)
  | Ok false => (Ok ("Invalid signature"%string, 403), st)
  | Ok true =>
      match req_events req with
      | None => (Ok ("Invalid request"%string, 400), st)
      | Some [] => (Ok ("OK"%string, 200), st)
      | Some items =>
          match _get_services with
          | Raise e => (Raise e, st)
          | Ok _ =>
              match handle_events items st with
              | (Ok _, st') => (Ok ("OK"%string, 200), st')
              | (Raise e, st') => (Raise e, st')
              end
          end
      end
  end.

(** X20. A request with no signature or an empty one is answered 403
    without the channel secret being read; a response is one of 403,
    400 and 200; and with 403 or 400 nothing was handled: the calendar,
    the log sheet and the replies are as they were. *)
Theorem main_rejects_unsigned (req : http_request) (st : hook_state) :
  (truthy (req_signature req) = false ->
   main req st = (Ok ("Invalid signature"%string, 403), st))
  /\ (forall out st',
         main req st = (Ok out, st') ->
         (out = ("Invalid signature"%string, 403) /\ st' = st)
         \/ (out = ("Invalid request"%string, 400) /\ st' = st)
         \/ out = ("OK"%string, 200)).
Proof.
  split.
  - intros Hsig. unfold main, _validate_line_signature.
    assert (Hor : truthy (Some (or_else (req_signature req) EmptyString))
                  = false).
    { unfold or_else. destruct (req_signature req) as [[|c s]|]; done. }
    by rewrite Hor.
  - intros out st' Hrun. unfold main in Hrun.
    destruct (_validate_line_signature _ _) as [[|] | e]; [| | discriminate].
    + destruct (req_events req) as [[|item items] |].
      * injection Hrun as <- <-. by right; right.
      * destruct _get_services; [| discriminate].
        destruct (handle_events _ _) as [[? | ?] ?]; [| discriminate].
        injection Hrun as <- <-. by right; right.
      * injection Hrun as <- <-. right. by left.
    + injection Hrun as <- <-. by left.
Qed.

Lemma handle_events_text_only (items : list line_event) (st : hook_state) :
  handle_events items st
  = handle_events (filter (fun item => text_message item = true) items) st.
Proof.
  revert st. induction items as [|item items IH]; intros st; [reflexivity |].
  rewrite filter_cons. destruct (text_message item) eqn:Ht.
  - case_decide; [| congruence]. cbn [handle_events]. rewrite Ht.
    destruct (handle_text _ _ st.1) as [[[reply_text lg] | e] w']; [| done].
    destruct (le_reply_token item) as [token|]; [| apply IH].
    rewrite (IH (w', st.2)), (IH (w', st.2 ++ [(token, reply_text)])).
    reflexivity.
  - case_decide; [congruence |]. cbn [handle_events]. rewrite Ht. apply IH.
Qed.

(** One turn of the loop on a text message: at most three calls, at most
    one log row and at most one reply, sent to the token of the message;
    then the loop goes on or stops on an exception. *)
Lemma handle_events_step (item : line_event) (items : list line_event)
    (st st' : hook_state) (r : res unit) :
  text_message item = true ->
  handle_events (item :: items) st = (r, st') ->
  exists (st1 : hook_state) calls rows replies,
    w_calls st1.1 = w_calls st.1 ++ calls
    /\ w_rows st1.1 = w_rows st.1 ++ rows
    /\ st1.2 = st.2 ++ replies
    /\ (length calls <= 3)%nat
    /\ (length rows <= 1)%nat
    /\ (length replies <= 1)%nat
    /\ Forall (fun tr : string * message =>
                 le_reply_token item = Some tr.1 /\ tr.1 <> EmptyString
                 /\ reply_given tr.2 = true) replies
    /\ ((exists e, r = Raise e /\ st' = st1)
        \/ handle_events items st1 = (r, st')).
Proof.
  intros Ht Hrun. cbn [handle_events] in Hrun. rewrite Ht in Hrun.
  destruct (handle_text _ _ st.1) as [[[reply_text lg] | e] w'] eqn:Hh.
  2:{ injection Hrun as <- <-. unfold handle_text in Hh.
      apply handle_message_raise in Hh as ->.
      exists st, [], [], []. destruct st as [w0 rs]. simpl.
      rewrite !app_nil_r. repeat split; try lia; [constructor |].
      left. by exists e. }
  unfold handle_text in Hh.
  destruct (handle_message_trace_shape _ _ _ _ _ _ _ _ _ _ _ _ _ _ _ _ _ _
              Hh) as (cs & Hcs & Hlen & _).
  pose proof (handle_message_rows _ _ _ _ _ _ _ _ _ _ _ _ _ _ _ _ _ _ Hh)
    as Hrows. cbn [snd] in Hrows.
  assert (Hrl : (length (if append_ok lg then [lg] else []) <= 1)%nat)
    by (destruct (append_ok lg); simpl; lia).
  assert (Hquiet : exists (st1 : hook_state) calls rows replies,
    st1 = (w', st.2)
    /\ w_calls st1.1 = w_calls st.1 ++ calls
    /\ w_rows st1.1 = w_rows st.1 ++ rows
    /\ st1.2 = st.2 ++ replies
    /\ (length calls <= 3)%nat
    /\ (length rows <= 1)%nat
    /\ (length replies <= 1)%nat
    /\ Forall (fun tr : string * message =>
                 le_reply_token item = Some tr.1 /\ tr.1 <> EmptyString
                 /\ reply_given tr.2 = true) replies).
  { exists (w', st.2), cs, (if append_ok lg then [lg] else []), [].
    simpl. rewrite app_nil_r. repeat split; try done; try lia. }
  destruct Hquiet as (st1 & calls & rows & replies & Heq & Hq).
  destruct (le_reply_token item) as [token|] eqn:Htok.
  - destruct (truthy (Some token) && reply_given reply_text) eqn:Hgo.
    + apply andb_true_iff in Hgo as [Htr Hgiven].
      destruct (_send_line_reply token reply_text) as [[] | e].
      * exists (w', st.2 ++ [(token, reply_text)]), cs,
          (if append_ok lg then [lg] else []), [(token, reply_text)].
        simpl. repeat split; try done; try lia.
        -- constructor; [| constructor]. simpl.
           split; [reflexivity |]. split; [| exact Hgiven].
           intros ->. discriminate.
        -- by right.
      * exists st1, calls, rows, replies. subst st1.
        destruct Hq as (H1 & H2 & H3 & H4 & H5 & H6 & H7).
        repeat split; try done.
        left. injection Hrun as <- <-. by exists e.
    + exists st1, calls, rows, replies. subst st1.
      destruct Hq as (H1 & H2 & H3 & H4 & H5 & H6 & H7).
      repeat split; try done. by right.
  - exists st1, calls, rows, replies. subst st1.
    destruct Hq as (H1 & H2 & H3 & H4 & H5 & H6 & H7).
    repeat split; try done. by right.
Qed.

Lemma handle_events_bounds (items : list line_event) (st st' : hook_state)
    (r : res unit) :
  handle_events items st = (r, st') ->
  exists calls rows replies,
    w_calls st'.1 = w_calls st.1 ++ calls
    /\ w_rows st'.1 = w_rows st.1 ++ rows
    /\ st'.2 = st.2 ++ replies
    /\ (length calls
        <= 3 * length (filter (fun item => text_message item = true) items))%nat
    /\ (length rows
        <= length (filter (fun item => text_message item = true) items))%nat
    /\ (length replies
        <= length (filter (fun item => text_message item = true) items))%nat
    /\ Forall (fun tr : string * message =>
                 tr.1 <> EmptyString /\ reply_given tr.2 = true
                 /\ exists item, item ∈ items /\ text_message item = true
                                  /\ le_reply_token item = Some tr.1)
              replies.
Proof.
  revert st. induction items as [|item items IH]; intros st Hrun.
  - injection Hrun as <- <-. exists [], [], [].
    rewrite !app_nil_r. repeat split; simpl; try lia. constructor.
  - rewrite filter_cons. destruct (text_message item) eqn:Ht; cycle 1.
    { cbn [handle_events] in Hrun. rewrite Ht in Hrun.
      case_decide; [congruence |].
      destruct (IH _ Hrun) as (calls & rows & replies & H1 & H2 & H3 & H4
                               & H5 & H6 & H7).
      exists calls, rows, replies. repeat split; try done.
      eapply Forall_impl; [exact H7 |].
      intros tr (Hne & Hg & item0 & Hin & Hrest). split; [exact Hne |].
      split; [exact Hg |]. exists item0.
      split; [by apply list_elem_of_further | exact Hrest]. }
    case_decide; [| congruence]. cbn [length].
    destruct (handle_events_step _ _ _ _ _ Ht Hrun)
      as (st1 & calls0 & rows0 & replies0 & Hc & Hr & Hp & Hlc & Hlr & Hlp
          & Hall0 & Hnext).
    assert (Hall0' : Forall (fun tr : string * message =>
                 tr.1 <> EmptyString /\ reply_given tr.2 = true
                 /\ exists item0, item0 ∈ item :: items
                                   /\ text_message item0 = true
                                   /\ le_reply_token item0 = Some tr.1)
              replies0).
    { eapply Forall_impl; [exact Hall0 |]. intros tr (Htok & Hne & Hg).
      split; [exact Hne |]. split; [exact Hg |]. exists item.
      split; [apply list_elem_of_here | done]. }
    destruct Hnext as [(e & -> & ->) | Hnext].
    + exists calls0, rows0, replies0. repeat split; try done; lia.
    + destruct (IH _ Hnext) as (calls & rows & replies & H1 & H2 & H3 & H4
                                & H5 & H6 & H7).
      exists (calls0 ++ calls), (rows0 ++ rows), (replies0 ++ replies).
      rewrite H1, Hc, H2, Hr, H3, Hp, <- !app_assoc, !length_app.
      repeat split; try lia.
      apply Forall_app. split; [exact Hall0' |].
      eapply Forall_impl; [exact H7 |].
      intros tr (Hne & Hg & item0 & Hin & Hrest). split; [exact Hne |].
      split; [exact Hg |]. exists item0.
      split; [by apply list_elem_of_further | exact Hrest].
Qed.

(** X21. Entries of the webhook that are not text messages are passed
    over: the loop does what it does on the text messages alone; and
    whether it ends or stops on an exception, it has issued at most
    three calendar calls, written at most one log row and sent at most
    one reply per text message, each reply non-empty and sent to the
    non-empty reply token of a text message of the request. *)
Theorem handle_events_only_text_messages (items : list line_event)
    (st : hook_state) :
  handle_events items st
  = handle_events (filter (fun item => text_message item = true) items) st
  /\ forall r st',
       handle_events items st = (r, st') ->
       exists calls rows replies,
         w_calls st'.1 = w_calls st.1 ++ calls
         /\ w_rows st'.1 = w_rows st.1 ++ rows
         /\ st'.2 = st.2 ++ replies
         /\ (length calls
             <= 3 * length (filter (fun item => text_message item = true)
                                   items))%nat
         /\ (length rows
             <= length (filter (fun item => text_message item = true)
                               items))%nat
         /\ (length replies
             <= length (filter (fun item => text_message item = true)
                               items))%nat
         /\ Forall (fun tr : string * message =>
                      tr.1 <> EmptyString /\ reply_given tr.2 = true
                      /\ exists item, item ∈ items
                                       /\ text_message item = true
                                       /\ le_reply_token item = Some tr.1)
                   replies.
Proof.
  split; [apply handle_events_text_only |].
  intros r st'. apply handle_events_bounds.
Qed.

End Pipeline.

(** Stand-ins for the model's reply and for the parsing of a date: the
    text of a date is read as the hour of day 0 given by its length. *)
Definition test_generate (p : payload) (mode text : string) : res payload :=
  Ok p.

Definition test_fromisoformat (value tz : string) : res datetime :=
  Ok (at_ 0 (Z.of_nat (String.length value)) 0).

Definition no_payload : payload :=
  Payload None None None None None None None.

(** ** The engine at work: concrete runs *)

Local Abbreviation run_engine d :=
  (_handle_message utc_combine utc_date (hm 9 0) (hm 18 0) "UTC"%string
     test_environ 0 test_mode (test_extract d) test_refusal test_format
     test_strip test_append_ok).

(** Window 09:00-18:00, one event 10:00-11:00, sixty minutes asked: the
    slots are 09:00-10:00 and 11:00-18:00. *)
Example free_slots_example :
  _compute_free_slots utc_combine (hm 9 0) (hm 18 0)
    [booked "a" "U1" (at_ 0 10 0) (at_ 0 11 0)] 0 "UTC" 60
  = [(at_ 0 9 0, at_ 0 10 0); (at_ 0 11 0, at_ 0 18 0)].
Proof. reflexivity. Qed.

(** The marker test is a substring test: the marker of user [U1] is found
    in the description written for user [U12]. *)
Example owner_marker_prefix :
  owner_matches "U1" (booked "a" "U12" (at_ 0 10 0) (at_ 0 11 0)) = true.
Proof. reflexivity. Qed.





(** Touching ranges come out as one. *)
Lemma merge_busy_ranges_canonical_witness :
  _merge_busy_ranges [(10, 20); (20, 25)] = [(10, 25)]
  /\ _merge_busy_ranges (_merge_busy_ranges [(30, 50); (10, 20); (40, 45)])
     = _merge_busy_ranges [(30, 50); (10, 20); (40, 45)].
Proof.
  destruct (merge_busy_ranges_canonical [(30, 50); (10, 20); (40, 45)])
    as (_ & _ & Htouch & Hidem & _).
  split; [| exact Hidem].
  apply (Htouch 10 20 25). lia.
Defined.

(** A list holding only a cancelled event never conflicts. *)
Lemma has_conflict_characterised_witness :
  _has_conflict
    [Event (Some "a") (Some "cancelled") None (at_ 0 10 0) (at_ 0 11 0)]
    (Some "b")
  = false.
Proof.
  destruct has_conflict_characterised as (_ & _ & Hcancelled).
  apply Hcancelled. repeat constructor.
Defined.

(** An event with no status and the empty id still conflicts when the
    exclusion id is the empty string. *)
Lemma has_conflict_only_cancelled_skipped_witness :
  _has_conflict
    [Event (Some EmptyString) None None (at_ 0 10 0) (at_ 0 11 0)]
    (Some EmptyString)
  = true.
Proof.
  destruct has_conflict_only_cancelled_skipped as (_ & _ & _ & Hempty).
  apply Hempty. discriminate.
Defined.

(** The caller's list [[30-50; 10-20]] is left sorted; the merged ranges
    are in another list. *)
Lemma merge_busy_ranges_sorts_argument_in_place_witness :
  exists l' h',
    _merge_busy_ranges_ref 0%nat {[ 0%nat := [(30, 50); (10, 20)] ]}
    = Some (l', h')
    /\ l' <> 0%nat
    /\ h' !! 0%nat = Some [(10, 20); (30, 50)]
    /\ h' !! l' = Some [(10, 20); (30, 50)].
Proof.
  destruct merge_busy_ranges_sorts_argument_in_place as (Hspec & _ & _).
  destruct (Hspec {[ 0%nat := [(30, 50); (10, 20)] ]} 0%nat
              [(30, 50); (10, 20)])
    as (l' & h' & Hrun & _ & Hne & Harg & Hres & _).
  - reflexivity.
  - exists l', h'. split; [exact Hrun |]. split; [exact Hne |].
    split; [exact Harg | exact Hres].
Defined.



(** User [U1] cancels and only another user's event is listed: the reply
    is not-found and the store is as it was. *)
Lemma refusals_leave_calendar_untouched_witness :
  quiet (World [booked "a" "U2" (at_ 0 10 0) (at_ 0 11 0)] [] [])
        (run_engine (request "cancel" None None None) "cancel my visit" "U1"
           (World [booked "a" "U2" (at_ 0 10 0) (at_ 0 11 0)] [] [])).2.
Proof.
  destruct (refusals_leave_calendar_untouched (H := list_calendar)
              utc_combine utc_date (hm 9 0) (hm 18 0) "UTC" test_environ 0
              test_mode (test_extract (request "cancel" None None None))
              test_refusal test_format test_strip test_append_ok
              "cancel my visit" "U1"
              (World [booked "a" "U2" (at_ 0 10 0) (at_ 0 11 0)] [] []))
    as [Hquiet _].
  eapply Hquiet; [reflexivity |]. left. reflexivity.
Defined.

(** ** More concrete runs *)

Local Abbreviation run_text p :=
  (handle_text (H := list_calendar) utc_combine utc_date (hm 9 0) (hm 18 0)
     "UTC"%string 60 test_environ 0 (test_generate p) test_fromisoformat
     test_refusal test_format test_strip test_append_ok).


Lemma free_slots_avoid_events_witness :
  ~ in_range (at_ 0 10 30) (at_ 0 11 0, at_ 0 18 0).
Proof.
  intros Ht.
  apply (free_slots_avoid_events utc_combine (hm 9 0) (hm 18 0)
           [booked "a" "U1" (at_ 0 10 0) (at_ 0 11 0)] 0 "UTC" 60
           (at_ 0 11 0, at_ 0 18 0)
           (booked "a" "U1" (at_ 0 10 0) (at_ 0 11 0)) (at_ 0 10 30)).
  - rewrite free_slots_example. apply list_elem_of_further, list_elem_of_here.
  - apply list_elem_of_here.
  - reflexivity.
  - exact Ht.
  - vm_compute. split; [discriminate | reflexivity].
Defined.

Lemma free_slots_chronological_witness :
  StronglySorted before
    [(at_ 0 9 0, at_ 0 10 0); (at_ 0 11 0, at_ 0 18 0)].
Proof.
  rewrite <- free_slots_example.
  apply free_slots_chronological.
  - vm_compute. discriminate.
  - repeat constructor. intros _. vm_compute. discriminate.
Defined.




Lemma handle_message_early_failures_witness :
  exists name,
    _handle_message (H := list_calendar) utc_combine utc_date (hm 9 0)
      (hm 18 0) "UTC" (fun _ => None) 0 test_mode
      (test_extract (request "new" None None None)) test_refusal test_format
      test_strip test_append_ok "hello" "U1" (World [] [] [])
    = (Raise (ValueError name), World [] [] []).
Proof.
  destruct (handle_message_early_failures (H := list_calendar) utc_combine
              utc_date (hm 9 0) (hm 18 0) "UTC" (fun _ => None) 0 test_mode
              (test_extract (request "new" None None None)) test_refusal
              test_format test_strip test_append_ok "hello" "U1"
              (World [] [] [])) as [Henv _].
  apply Henv. by left.
Defined.

Lemma handle_message_calls_witness :
  exists cs,
    w_calls (run_engine (request "new" (Some (at_ 0 10 0)) (Some (at_ 0 11 0))
                                 None)
               "book me at ten" "U1"
               (World [booked "a" "U2" (at_ 0 10 30) (at_ 0 11 30)] [] [])).2
    = [] ++ cs
    /\ (length cs <= 3)%nat.
Proof.
  edestruct (handle_message_calls (H := list_calendar) utc_combine utc_date
               (hm 9 0) (hm 18 0) "UTC" test_environ 0 test_mode
               (test_extract
                  (request "new" (Some (at_ 0 10 0)) (Some (at_ 0 11 0)) None))
               test_refusal test_format test_strip test_append_ok
               "book me at ten" "U1"
               (World [booked "a" "U2" (at_ 0 10 30) (at_ 0 11 30)] [] []))
    as (cs & Hcs & Hlen & _).
  - vm_compute. reflexivity.
  - exists cs. split; [exact Hcs | exact Hlen].
Defined.

Lemma handle_message_status_reflects_write_witness :
  w_cal (run_engine (request "new" (Some (at_ 0 10 0)) (Some (at_ 0 11 0)) None)
           "book me at ten" "U1"
           (World [booked "a" "U2" (at_ 0 10 30) (at_ 0 11 30)] [] [])).2
  = [booked "a" "U2" (at_ 0 10 30) (at_ 0 11 30)].
Proof.
  edestruct (handle_message_status_reflects_write (H := list_calendar)
               utc_combine utc_date (hm 9 0) (hm 18 0) "UTC" test_environ 0
               test_mode
               (test_extract
                  (request "new" (Some (at_ 0 10 0)) (Some (at_ 0 11 0)) None))
               test_refusal test_format test_strip test_append_ok
               "book me at ten" "U1"
               (World [booked "a" "U2" (at_ 0 10 30) (at_ 0 11 30)] [] []))
    as [[Hcal _] | (pre & m & _ & _ & Hst)].
  - vm_compute. reflexivity.
  - exact Hcal.
  - destruct m; discriminate Hst.
Defined.

Lemma handle_message_logs_reply_witness :
  exists lg,
    log_message lg = Some (MsgRefusal "morning; later")
    /\ log_status lg = "conflict"%string
    /\ w_rows (run_engine (request "new" (Some (at_ 0 10 0))
                                   (Some (at_ 0 11 0)) None)
                 "book me at ten" "U1"
                 (World [booked "a" "U2" (at_ 0 10 30) (at_ 0 11 30)] [] [])).2
       = [lg].
Proof.
  eexists.
  edestruct (handle_message_logs_reply (H := list_calendar)
               utc_combine utc_date (hm 9 0) (hm 18 0) "UTC" test_environ 0
               test_mode
               (test_extract
                  (request "new" (Some (at_ 0 10 0)) (Some (at_ 0 11 0)) None))
               test_refusal test_format test_strip test_append_ok
               "book me at ten" "U1"
               (World [booked "a" "U2" (at_ 0 10 30) (at_ 0 11 30)] [] []))
    as (Hm & Hst & _ & Hrows).
  - vm_compute. reflexivity.
  - split; [exact Hm |]. split; [exact Hst | exact Hrows].
Defined.

Lemma handle_other_intent_witness :
  exists lg,
    log_status lg = "error"%string
    /\ log_error lg = Some AttributeError
    /\ run_engine (request "ask" None None None) "are you open?" "U1"
         (World [] [] [])
       = (Ok (MsgError, lg), World [] [] [lg]).
Proof.
  destruct (handle_other_intent (H := list_calendar) utc_combine utc_date
              (hm 9 0) (hm 18 0) "UTC" test_environ 0 test_mode
              (test_extract (request "ask" None None None))
              test_refusal test_format test_strip test_append_ok
              "are you open?" "U1" "cal" "sheet"
              (request "ask" None None None) (World [] [] [])
              eq_refl eq_refl eq_refl)
    as [_ Hmissing]; try discriminate.
  destruct Hmissing as (lg & Hst & Herr & Hrun); [by left |].
  exists lg. split; [exact Hst |]. split; [exact Herr |].
  rewrite Hrun. reflexivity.
Defined.


Lemma merge_busy_ranges_spans_witness :
  exists m, m ∈ _merge_busy_ranges [(30, 50); (10, 20); (40, 45)]
            /\ m.1 <= 40 /\ 45 <= m.2.
Proof.
  destruct (merge_busy_ranges_spans [(30, 50); (10, 20); (40, 45)])
    as (_ & _ & Hin & _).
  apply (Hin (40, 45)). apply list_elem_of_further, list_elem_of_further,
    list_elem_of_here.
Defined.

Lemma has_conflict_order_free_witness :
  _has_conflict [booked "a" "U1" (at_ 0 13 40) (at_ 0 14 40);
                 Event (Some "c") (Some "cancelled") None (at_ 0 14 0)
                       (at_ 0 15 0)]
                (Some "a")
  = false.
Proof.
  destruct has_conflict_order_free as (_ & _ & _ & Hself).
  apply Hself; [discriminate |].
  constructor; [by right |]. constructor; [by left | constructor].
Defined.

Lemma test_strip_trims : trims_whitespace test_strip.
Proof.
  intros s. exists EmptyString, EmptyString. unfold test_strip.
  split; [| by split]. symmetry. apply (append_nil_r s).
Qed.

Lemma booking_description_matches_owner_witness :
  owner_skipped "U1"
    (Event (Some "created") (Some "confirmed")
           (Some (description_of test_strip "U1" "dental" "first visit"))
           (at_ 0 10 0) (at_ 0 11 0))
  = false.
Proof.
  destruct (booking_description_matches_owner test_strip "U1" "dental"
              "first visit" "UTC"
              (Event (Some "created") (Some "confirmed")
                     (Some (description_of test_strip "U1" "dental"
                                           "first visit"))
                     (at_ 0 10 0) (at_ 0 11 0)) [] []
              test_strip_trims eq_refl) as [Hown _].
  exact Hown.
Defined.

Lemma detect_mode_priority_witness :
  _detect_mode "荷物の集荷をお願いします" = "logistics"%string.
Proof.
  destruct (detect_mode_priority "荷物の集荷をお願いします")
    as (_ & Hlog & _).
  apply Hlog. split; reflexivity.
Defined.



Lemma request_without_start_rejected_witness :
  exists lg,
    log_error lg = Some (ValueError "start/end")
    /\ run_text (Payload None None (Some "nine haha") None None None None)
         "book me" "U1" (World [] [] [])
       = (Ok (MsgError, lg), World [] [] [lg]).
Proof.
  destruct (request_without_start_rejected (H := list_calendar)
              utc_combine utc_date (hm 9 0) (hm 18 0) "UTC" 60 test_environ 0
              (test_generate (Payload None None (Some "nine haha") None None
                                      None None))
              test_fromisoformat test_refusal test_format test_strip
              test_append_ok "book me" "U1" "cal" "sheet"
              (Payload None None (Some "nine haha") None None None None)
              (Some (at_ 0 9 0)) None (World [] [] [])
              eq_refl eq_refl eq_refl eq_refl (or_introl eq_refl)
              eq_refl eq_refl)
    as (lg & _ & Herr & Hrun).
  exists lg. split; [exact Herr |]. rewrite Hrun. reflexivity.
Defined.

Lemma main_rejects_unsigned_witness :
  main (H := list_calendar) utc_combine utc_date (hm 9 0) (hm 18 0) "UTC" 60
    (fun _ => None) 0 (test_generate no_payload) test_fromisoformat
    test_refusal test_format test_strip test_append_ok
    (fun _ _ _ => true) (Ok tt) (fun _ _ => Ok tt)
    (HttpRequest "{}" None (Some []))
    (World [] [] [], [])
  = (Ok ("Invalid signature"%string, 403), (World [] [] [], [])).
Proof.
  destruct (main_rejects_unsigned (H := list_calendar) utc_combine utc_date
              (hm 9 0) (hm 18 0) "UTC" 60 (fun _ => None) 0
              (test_generate no_payload) test_fromisoformat test_refusal
              test_format test_strip test_append_ok (fun _ _ _ => true)
              (Ok tt) (fun _ _ => Ok tt)
              (HttpRequest "{}" None (Some [])) (World [] [] [], []))
    as [Hunsigned _].
  apply Hunsigned. reflexivity.
Defined.

Lemma handle_events_only_text_messages_witness :
  handle_events (H := list_calendar) utc_combine utc_date (hm 9 0) (hm 18 0)
    "UTC" 60 test_environ 0 (test_generate no_payload) test_fromisoformat
    test_refusal test_format test_strip test_append_ok (fun _ _ => Ok tt)
    [LineEvent (Some "follow") None None (Some "U1") (Some "token")]
    (World [] [] [], [])
  = (Ok tt, (World [] [] [], [])).
Proof.
  destruct (handle_events_only_text_messages (H := list_calendar) utc_combine
              utc_date (hm 9 0) (hm 18 0) "UTC" 60 test_environ 0
              (test_generate no_payload) test_fromisoformat test_refusal
              test_format test_strip test_append_ok (fun _ _ => Ok tt)
              [LineEvent (Some "follow") None None (Some "U1") (Some "token")]
              (World [] [] [], [])) as [Hskip _].
  rewrite Hskip. reflexivity.
Defined.

Lemma merge_busy_ranges_order_free_witness :
  _merge_busy_ranges [(5, 7); (5, 5); (3, 5)]
  = _merge_busy_ranges [(3, 5); (5, 5); (5, 7)].
Proof.
  apply merge_busy_ranges_order_free.
  - symmetry. apply (Permutation_rev [(3, 5); (5, 5); (5, 7)]).
  - repeat constructor; simpl; lia.
Defined.

Lemma free_slots_order_free_witness :
  _compute_free_slots utc_combine (hm 9 0) (hm 18 0)
    [booked "b" "U1" (at_ 0 14 0) (at_ 0 15 0);
     booked "a" "U1" (at_ 0 10 0) (at_ 0 11 0)] 0 "UTC" 60
  = _compute_free_slots utc_combine (hm 9 0) (hm 18 0)
      [booked "a" "U1" (at_ 0 10 0) (at_ 0 11 0);
       booked "b" "U1" (at_ 0 14 0) (at_ 0 15 0)] 0 "UTC" 60.
Proof.
  apply free_slots_order_free.
  - apply Permutation_swap.
  - vm_compute. discriminate.
  - repeat constructor; intros _; vm_compute; discriminate.
Defined.

Lemma writes_follow_intent_and_owner_witness :
  exists cs,
    w_calls (run_engine (request "cancel" None None (Some (at_ 0 14 0)))
               "cancel my two o'clock" "U1"
               (World [booked "a" "U1" (at_ 0 13 40) (at_ 0 14 40)] [] [])).2
    = [] ++ cs
    /\ (length cs = 2)%nat.
Proof.
  edestruct (writes_follow_intent_and_owner (H := list_calendar) utc_combine
               utc_date (hm 9 0) (hm 18 0) "UTC" test_environ 0 test_mode
               (test_extract (request "cancel" None None (Some (at_ 0 14 0))))
               test_refusal test_format test_strip test_append_ok
               "cancel my two o'clock" "U1"
               (World [booked "a" "U1" (at_ 0 13 40) (at_ 0 14 40)] [] []))
    as (cs & Hcs & _).
  - vm_compute. reflexivity.
  - exists cs. split; [exact Hcs |].
    vm_compute in Hcs. by rewrite <- Hcs.
Defined.

